(** * Mean-field theory of the multi-area model: [multiarea_model/theory.py]

    A shallow embedding of the class [Theory] and of the part of numpy it
    uses.  Floating-point numbers are idealised as real numbers; Python
    exceptions are values of an error monad; the attributes and arrays that
    the methods share and update in place live in an explicit store. *)

From Stdlib Require Import String Reals Lra Lia ZArith Bool Arith List.
Import ListNotations.
Local Open Scope R_scope.

(** ** Exceptions and the error monad *)

Inductive exn : Type :=
| KeyError (key : string)
| AttributeError (attr : string)
| UnboundLocalError (var : string)
| AssertionError
| ValueError
| IndexError
| LinAlgError
| IOError
| TypeError
| ZeroDivisionError
| StopIteration
| NotImplementedError.

Inductive result (A : Type) : Type :=
| Ok (a : A)
| Raise (e : exn).
Arguments Ok {A} a.
Arguments Raise {A} e.

Definition rbind {A B : Type} (c : result A) (k : A -> result B) : result B :=
  match c with
  | Ok a => k a
  | Raise e => Raise e
  end.

Declare Scope result_scope.
Delimit Scope result_scope with result.
Notation "'let?' x ':=' c 'in' k" := (rbind c (fun x => k))
  (at level 10, x pattern, c at level 100, k at level 200) : result_scope.
Local Open Scope result_scope.

Definition is_ok {A : Type} (r : result A) : bool :=
  match r with Ok _ => true | Raise _ => false end.

Fixpoint mapM {A B : Type} (f : A -> result B) (l : list A) : result (list B) :=
  match l with
  | [] => Ok []
  | x :: l' => let? y := f x in let? ys := mapM f l' in Ok (y :: ys)
  end.

(** ** Python dictionaries with string keys *)

Definition dict (V : Type) : Type := list (string * V).

Fixpoint dict_get {V : Type} (d : dict V) (k : string) : result V :=
  match d with
  | [] => Raise (KeyError k)
  | (k', v) :: d' => if String.eqb k k' then Ok v else dict_get d' k
  end.

Definition dict_set {V : Type} (d : dict V) (k : string) (v : V) : dict V :=
  (k, v) :: filter (fun kv => negb (String.eqb k (fst kv))) d.

Definition dict_keys {V : Type} (d : dict V) : list string := map fst d.

(** ** One-dimensional arrays *)

Abbreviation vec := (list R) (only parsing).

Definition np_zeros (n : nat) : vec := repeat 0 n.

Definition np_zeros_like (v : vec) : vec := np_zeros (length v).

Definition np_ones (n : nat) : vec := repeat 1 n.

Fixpoint zip_with {A B C : Type} (f : A -> B -> C) (a : list A) (b : list B)
  : list C :=
  match a, b with
  | x :: a', y :: b' => f x y :: zip_with f a' b'
  | _, _ => []
  end.

(** Elementwise binary operation on two one-dimensional arrays, with numpy's
    broadcasting of an operand of length one. *)
Definition broadcast2 (f : R -> R -> R) (a b : vec) : result vec :=
  match a, b with
  | [x], _ => Ok (map (f x) b)
  | _, [y] => Ok (map (fun x => f x y) a)
  | _, _ => if Nat.eqb (length a) (length b) then Ok (zip_with f a b)
            else Raise ValueError
  end.

Definition np_add : vec -> vec -> result vec := broadcast2 Rplus.
Definition np_sub : vec -> vec -> result vec := broadcast2 Rminus.

(** [a -= b] on an ndarray [a]: the result must have the shape of [a]. *)
Definition np_isub (a b : vec) : result vec :=
  match b with
  | [y] => Ok (map (fun x => x - y) a)
  | _ => if Nat.eqb (length a) (length b) then Ok (zip_with Rminus a b)
         else Raise ValueError
  end.

Definition scale (c : R) (v : vec) : vec := map (Rmult c) v.

Definition np_sqrt (v : vec) : vec := map sqrt v.

(** [np.hstack((v, x))]; a scalar [x] is the array [[x]]. *)
Definition np_hstack (v : vec) (x : vec) : vec := v ++ x.

(** [v[mask]] for a boolean mask. *)
Fixpoint select {A : Type} (v : list A) (mask : list bool) : list A :=
  match v, mask with
  | x :: v', b :: mask' => if b then x :: select v' mask' else select v' mask'
  | _, _ => []
  end.

Definition bool_index (v : vec) (mask : list bool) : result vec :=
  if Nat.eqb (length v) (length mask) then Ok (select v mask)
  else Raise IndexError.

(** [v[i]] for a non-negative index. *)
Definition index (v : vec) (i : nat) : result R :=
  match nth_error v i with
  | Some x => Ok x
  | None => Raise IndexError
  end.

Definition sum (v : vec) : R := fold_right Rplus 0 v.

(** [x ** y] on floats: [0 ** 0 = 1] and [0 ** y = 0] for positive [y]. *)
Definition np_power (x y : R) : R :=
  if Req_dec_T x 0 then (if Req_dec_T y 0 then 1 else 0) else Rpower x y.

(** ** Two-dimensional arrays

    A matrix records its number of columns beside its rows, so that an array
    of shape [(0, c)] keeps [c]. *)

Record matrix (T : Type) : Type := mkmat {
  m_cols : nat;
  m_rows : list (list T)
}.
Arguments mkmat {T} m_cols m_rows.
Arguments m_cols {T} m.
Arguments m_rows {T} m.

Definition shape0 {T : Type} (A : matrix T) : nat := length (m_rows A).
Definition shape1 {T : Type} (A : matrix T) : nat := m_cols A.
Definition size {T : Type} (A : matrix T) : nat := (shape0 A * shape1 A)%nat.

Definition wf_matrix {T : Type} (A : matrix T) : Prop :=
  Forall (fun r => length r = m_cols A) (m_rows A).

Definition same_shape {S T : Type} (A : matrix S) (B : matrix T) : bool :=
  Nat.eqb (shape0 A) (shape0 B) && Nat.eqb (shape1 A) (shape1 B).

Definition mat_map {S T : Type} (f : S -> T) (A : matrix S) : matrix T :=
  mkmat (m_cols A) (map (map f) (m_rows A)).

(** Elementwise operation on two arrays of one shape.  Operands of different
    shapes raise; numpy's broadcasting of unit axes is not part of the model:
    the operands are built with one shape in [theory.py], or are the
    network's [K_matrix] and [J_matrix], which share a shape. *)
Definition mat_zip {S T U : Type} (e : exn) (f : S -> T -> U)
    (A : matrix S) (B : matrix T) : result (matrix U) :=
  if same_shape A B
  then Ok (mkmat (m_cols A) (zip_with (zip_with f) (m_rows A) (m_rows B)))
  else Raise e.

Definition mat_mul : matrix R -> matrix R -> result (matrix R) :=
  mat_zip ValueError Rmult.
Definition mat_add : matrix R -> matrix R -> result (matrix R) :=
  mat_zip ValueError Rplus.

Definition np_zeros_like2 {T : Type} (A : matrix T) : matrix R :=
  mat_map (fun _ => 0) A.

Definition np_logical_not (m : matrix bool) : matrix bool := mat_map negb m.

(** [A[:, :-1]] *)
Definition drop_last_col {T : Type} (A : matrix T) : matrix T :=
  mkmat (pred (m_cols A)) (map (@removelast T) (m_rows A)).

(** [A[mask]]: the selected entries in row-major order. *)
Definition mask_select {T : Type} (A : matrix T) (mask : matrix bool)
  : result (list T) :=
  if same_shape A mask
  then Ok (concat (zip_with (@select T) (m_rows A) (m_rows mask)))
  else Raise IndexError.

(** [A[mask] = 0.] *)
Definition mask_zero (A : matrix R) (mask : matrix bool) : result (matrix R) :=
  mat_zip IndexError (fun x (b : bool) => if b then 0 else x) A mask.

Fixpoint chunks {T : Type} (r c : nat) (v : list T) : list (list T) :=
  match r with
  | O => []
  | S r' => firstn c v :: chunks r' c (skipn c v)
  end.

(** [v.reshape((r, c))]; a dimension [-1] is inferred, other negative
    dimensions are refused. *)
Definition reshape {T : Type} (v : list T) (r : nat) (c : Z)
  : result (matrix T) :=
  if Z.leb 0 c then
    if Nat.eqb (length v) (r * Z.to_nat c)
    then Ok (mkmat (Z.to_nat c) (chunks r (Z.to_nat c) v))
    else Raise ValueError
  else if Z.eqb c (-1) then
    match r with
    | O => Raise ValueError
    | S _ =>
        if Nat.eqb (length v mod r) 0
        then Ok (mkmat (length v / r) (chunks r (length v / r) v))
        else Raise ValueError
    end
  else Raise ValueError.

(** [np.dot(A, v)] for a matrix and a one-dimensional array. *)
Definition np_dot (A : matrix R) (v : vec) : result vec :=
  if Nat.eqb (m_cols A) (length v)
  then Ok (map (fun r => sum (zip_with Rmult r v)) (m_rows A))
  else Raise ValueError.

Fixpoint set_nth {T : Type} (l : list T) (i : nat) (x : T) : list T :=
  match l, i with
  | [] , _ => []
  | _ :: l', O => x :: l'
  | y :: l', S i' => y :: set_nth l' i' x
  end.

(** The values assigned to a slice of length [n]: the array itself, or its
    single entry repeated. *)
Definition broadcast_to (v : vec) (n : nat) : result vec :=
  match v with
  | [x] => Ok (repeat x n)
  | _ => if Nat.eqb (length v) n then Ok v else Raise ValueError
  end.

(** [A[i] = v] *)
Definition set_row (A : matrix R) (i : nat) (v : vec) : result (matrix R) :=
  if Nat.ltb i (shape0 A)
  then let? w := broadcast_to v (m_cols A) in
       Ok (mkmat (m_cols A) (set_nth (m_rows A) i w))
  else Raise IndexError.

(** [A[:, j] = v] *)
Definition set_col (A : matrix R) (j : nat) (v : vec) : result (matrix R) :=
  if Nat.ltb j (m_cols A)
  then let? w := broadcast_to v (shape0 A) in
       Ok (mkmat (m_cols A) (zip_with (fun r x => set_nth r j x) (m_rows A) w))
  else Raise IndexError.

(** [A.T] *)
Definition transpose (A : matrix R) : matrix R :=
  mkmat (shape0 A)
        (map (fun j => map (fun r => nth j r 0) (m_rows A)) (seq 0 (m_cols A))).

(** [A[:, [0, -1]]] *)
Definition first_last_cols (A : matrix R) : result (matrix R) :=
  match m_cols A with
  | O => Raise IndexError
  | S _ => Ok (mkmat 2 (map (fun r => [nth 0 r 0; last r 0]) (m_rows A)))
  end.

Definition mget (A : matrix R) (i j : nat) : R := nth j (nth i (m_rows A) []) 0.

(** Division of two Python floats. *)
Definition py_div (x y : R) : result R :=
  if Req_dec_T y 0 then Raise ZeroDivisionError else Ok (x / y).

(** [np.arange(0, T, dt)]: [ceil(T / dt)] points [0, dt, 2 dt, ...]; a
    zero step is refused. *)
Definition arange_len (T dt : R) : nat := Z.to_nat (Zceil (T / dt)).

Definition arange_points (T dt : R) : vec :=
  map (fun i => INR i * dt) (seq 0 (arange_len T dt)).

Definition np_arange (T dt : R) : result vec :=
  if Req_dec_T dt 0 then Raise ValueError else Ok (arange_points T dt).

(** [np.max] of a one-dimensional array. *)
Definition np_max (v : vec) : result R :=
  match v with
  | [] => Raise ValueError
  | x :: v' => Ok (fold_left Rmax v' x)
  end.

(** ** Collaborators outside [theory.py]

    The transfer function and its derivatives ([theory_helpers]), the mask
    builders and the rate-file reader ([multiarea_helpers], [json]), numpy's
    eigenvalue routine and its global random generator are taken as
    parameters.  [np.random.rand] returns samples of the half-open interval
    [[0, 1)]. *)

Record Helpers : Type := {
  (* nu0_fb(mu, sigma, tau_m, tau_s, tau_r, V_th, V_r) *)
  helpers_nu0_fb : R -> R -> R -> R -> R -> R -> R -> R;
  (* d_nu_d_mu_fb_numeric(tau_m, tau_s, tau_r, V_th, V_r, mu, sigma) *)
  helpers_d_nu_d_mu_fb_numeric : R -> R -> R -> R -> R -> R -> R -> R;
  helpers_d_nu_d_sigma_fb_numeric : R -> R -> R -> R -> R -> R -> R -> R;
  (* create_mask(structure, target_areas=..., cortico_cortical=True,
     external=False); [None] is the default: all areas *)
  helpers_create_mask :
    dict (list string) -> option (list string) -> matrix bool;
  (* create_vector_mask(structure, areas=...) *)
  helpers_create_vector_mask : dict (list string) -> list string -> list bool;
  (* open(path), json.load and dict_to_vector(rates, area_list, structure) *)
  helpers_load_rates :
    string -> list string -> dict (list string) -> result vec;
  (* np.linalg.eig(M), and the real parts of the eigenvalues it returns *)
  eig_result : Type;
  np_linalg_eig : matrix R -> result eig_result;
  eig_real : eig_result -> vec;
  (* the state of np.random, np.random.seed and one sample of rand *)
  rng_state : Type;
  np_random_seed : Z -> rng_state;
  random_sample : rng_state -> R * rng_state;
  random_sample_range : forall g, 0 <= fst (random_sample g) < 1
}.

(** ** Configuration and the network *)

(** [params['initial_rates']]: [None], a string or an array. *)
Inductive initial_rates_param : Type :=
| IR_None
| IR_str (mode : string)
| IR_array (v : vec).

(** The theory's parameters after the custom ones have been merged into the
    defaults. *)
Record TheoryParams : Type := {
  dt : R;
  T : R;
  initial_rates_p : initial_rates_param;
  initial_rates_iter : nat;
  rate_ext : R;            (* params['input_params']['rate_ext'] *)
  V_th : R;
  V_reset : R;
  E_L : R;
  tau_m : R;
  tau_syn_ex : R;
  t_ref : R
}.

(** The part of the network that the theory only reads.  [K_matrix] and
    [J_matrix] are arrays that methods index and assign to: they are in the
    store. *)
Record Network : Type := {
  N_vec : vec;
  add_DC_drive : vec;
  structure : dict (list string);
  structure_vec : list string;
  area_list : list string;
  replace_cc : option string;  (* params['connection_params']['replace_cc'] *)
  replace_cc_input_source : string;
  net_rate_ext : R;            (* network.params['input_params']['rate_ext'] *)
  C_m : R
}.

Record Theory : Type := {
  params : TheoryParams;
  network : Network;
  NP : dict R
}.

(** [Theory.__init__]; the label, a hash of the parameters, is not
    modelled. *)
Definition Theory_init (net : Network) (p : TheoryParams) : Theory :=
  {| params := p;
     network := net;
     NP := [ ("theta"%string, V_th p - E_L p);
             ("V_reset"%string, V_reset p - E_L p);
             ("tau_m"%string, tau_m p);
             ("tau_syn"%string, tau_syn_ex p);
             ("t_ref"%string, t_ref p);
             ("tau"%string, 1) ] |}.

(** Values of the attributes that methods set on [self]. *)
Inductive pyval : Type :=
| PInt (n : nat)
| PVec (v : vec)
| PMat (m : matrix R).

Section TheoryClass.

Variable h : Helpers.

(** ** The store *)

Record store : Type := mkstore {
  K_matrix : matrix R;        (* self.network.K_matrix *)
  J_matrix : matrix R;        (* self.network.J_matrix *)
  np_random : rng_state h;    (* numpy's global random state *)
  attrs : dict pyval          (* attributes set on self after __init__ *)
}.

Definition M (A : Type) : Type := store -> result A * store.

Definition ret {A : Type} (a : A) : M A := fun s => (Ok a, s).

Definition raise {A : Type} (e : exn) : M A := fun s => (Raise e, s).

Definition bind {A B : Type} (c : M A) (k : A -> M B) : M B :=
  fun s => match c s with
           | (Ok a, s') => k a s'
           | (Raise e, s') => (Raise e, s')
           end.

Definition lift {A : Type} (r : result A) : M A := fun s => (r, s).

Definition get : M store := fun s => (Ok s, s).

Definition set_K_matrix (K : matrix R) : M unit :=
  fun s => (Ok tt, mkstore K (J_matrix s) (np_random s) (attrs s)).

Definition set_np_random (g : rng_state h) : M unit :=
  fun s => (Ok tt, mkstore (K_matrix s) (J_matrix s) g (attrs s)).

Definition setattr (name : string) (v : pyval) : M unit :=
  fun s => (Ok tt, mkstore (K_matrix s) (J_matrix s) (np_random s)
                           (dict_set (attrs s) name v)).

Definition getattr (name : string) : M pyval :=
  fun s => match dict_get (attrs s) name with
           | Ok v => (Ok v, s)
           | Raise _ => (Raise (AttributeError name), s)
           end.

Declare Scope store_scope.
Delimit Scope store_scope with store.
Notation "x <- c ;; k" := (bind c (fun x => k))
  (at level 61, c at next level, right associativity) : store_scope.
Notation "' pat <- c ;; k" := (bind c (fun x => match x with pat => k end))
  (at level 61, pat pattern, c at next level, right associativity)
  : store_scope.
Local Open Scope string_scope.
Local Open Scope list_scope.
Local Open Scope R_scope.
Local Open Scope store_scope.

(** A local variable that names a matrix: the network's own [K_matrix], or
    an array of the method's own. *)
Inductive array_ref : Type :=
| Shared_K
| Private (m : matrix R).

Definition read_ref (r : array_ref) : M (matrix R) :=
  match r with
  | Shared_K => s <- get ;; ret (K_matrix s)
  | Private m => ret m
  end.

(** [K[mask] = 0.] through the variable [r] *)
Definition zero_ref (r : array_ref) (mask : matrix bool) : M array_ref :=
  m <- read_ref r ;;
  m' <- lift (mask_zero m mask) ;;
  match r with
  | Shared_K => _ <- set_K_matrix m' ;; ret Shared_K
  | Private _ => ret (Private m')
  end.

Definition in_strings (o : option string) (l : list string) : bool :=
  match o with
  | Some s => existsb (String.eqb s) l
  | None => false
  end.

Definition is_string (o : option string) (s : string) : bool :=
  in_strings o [s].

Definition getattr_vec (name : string) : M vec :=
  v <- getattr name ;;
  match v with
  | PVec x => ret x
  | _ => raise TypeError
  end.

(** ** [Theory.replace_cc_input] *)

(** The body of [for area in self.network.area_list], with the two arrays
    it appends to. *)
Definition replace_cc_area (self : Theory) (area : string) (acc : vec * vec)
  : M (vec * vec) :=
  let net := network self in
  pops <- lift (dict_get (structure net) area) ;;
  let area_dim := length pops in
  let mask := helpers_create_mask h (structure net) (Some [area]) in
  let input_areas :=
    filter (fun a => negb (String.eqb a area)) (dict_keys (structure net)) in
  let rate_mask := helpers_create_vector_mask h (structure net) input_areas in
  cc_input_rates <- getattr_vec "cc_input_rates" ;;
  rate_vector <- lift (bool_index cc_input_rates rate_mask) ;;
  s <- get ;;
  let N_input_pops :=
    (Z.of_nat (shape1 (K_matrix s)) - 1 - Z.of_nat area_dim)%Z in
  K_sel <- lift (mask_select (K_matrix s) mask) ;;
  K_CC <- lift (reshape K_sel area_dim N_input_pops) ;;
  J_sel <- lift (mask_select (J_matrix s) mask) ;;
  J_CC <- lift (reshape J_sel area_dim N_input_pops) ;;
  KJ <- lift (mat_mul K_CC J_CC) ;;
  d <- lift (np_dot KJ rate_vector) ;;
  let mu_CC := fst acc ++ d in
  KJ2 <- lift (mat_mul K_CC (mat_map (fun x => x * x) J_CC)) ;;
  d2 <- lift (np_dot KJ2 rate_vector) ;;
  ret (mu_CC, snd acc ++ d2).

Fixpoint replace_cc_areas (self : Theory) (areas : list string)
    (acc : vec * vec) : M (vec * vec) :=
  match areas with
  | [] => ret acc
  | area :: rest =>
      acc' <- replace_cc_area self area acc ;;
      replace_cc_areas self rest acc'
  end.

Definition replace_cc_input (self : Theory) : M (vec * vec) :=
  let net := network self in
  _ <- (if is_string (replace_cc net) "het_poisson_stat" then
          rates <- lift (helpers_load_rates h (replace_cc_input_source net)
                           (area_list net) (structure net)) ;;
          setattr "cc_input_rates" (PVec rates)
        else if is_string (replace_cc net) "hom_poisson_stat" then
          s <- get ;;
          setattr "cc_input_rates"
            (PVec (map (fun x => x * net_rate_ext net)
                       (np_ones (shape0 (K_matrix s)))))
        else ret tt) ;;
  acc <- replace_cc_areas self (area_list net) ([], []) ;;
  tm <- lift (dict_get (NP self) "tau_m") ;;
  let tau := tm * 1e-3 in
  ret (map (fun x => x * tau) (fst acc), map (fun x => x * tau) (snd acc)).

(** ** [Theory.mu_sigma] *)

Definition mu_sigma (self : Theory) (rates : vec) (external : bool)
    (matrix_filter : option (matrix bool)) (vector_filter : option (list bool))
  : M (vec * vec) :=
  let net := network self in
  '(K, J) <-
    match matrix_filter with
    | Some mf =>
        s <- get ;;
        K <- lift (mask_zero (K_matrix s) (np_logical_not mf)) ;;
        J <- lift (mask_zero (J_matrix s) (np_logical_not mf)) ;;
        ret (Private K, J)
    | None =>
        s <- get ;;
        ret (Shared_K, J_matrix s)
    end ;;
  '(K, mu_CC, sigma2_CC) <-
    (if in_strings (replace_cc net) ["hom_poisson_stat"; "het_poisson_stat"]
     then
       cc <- replace_cc_input self ;;
       let mask := helpers_create_mask h (structure net) None in
       K' <- zero_ref K mask ;;
       ret (K', fst cc, snd cc)
     else ret (K, np_zeros_like rates, np_zeros_like rates)) ;;
  Kv <- read_ref K ;;
  KJ <- lift (mat_mul Kv J) ;;
  J2 <- lift (mat_mul J J) ;;
  rates <-
    (if external then ret (np_hstack rates [rate_ext (params self)])
     else
       d <- getattr "dim_ext" ;;
       match d with
       | PInt n => ret (np_hstack rates (np_zeros n))
       | _ => raise TypeError
       end) ;;
  KJ2 <- lift (mat_mul Kv J2) ;;
  tm <- lift (dict_get (NP self) "tau_m") ;;
  d <- lift (np_dot KJ rates) ;;
  m1 <- lift (np_add (scale (tm * 1e-3) d) mu_CC) ;;
  tm' <- lift (dict_get (NP self) "tau_m") ;;
  q <- lift (py_div tm' (C_m net)) ;;
  mu <- lift (np_add m1 (scale q (add_DC_drive net))) ;;
  tm'' <- lift (dict_get (NP self) "tau_m") ;;
  d2 <- lift (np_dot KJ2 rates) ;;
  sigma2 <- lift (np_add (scale (tm'' * 1e-3) d2) sigma2_CC) ;;
  ret (mu, np_sqrt sigma2).

(** ** [Theory.nu0_fb] and [Theory.Phi] *)

Definition nu0_fb (self : Theory) (arg : R * R) : result R :=
  let mu := fst arg in
  let sigma := snd arg in
  let? tm := dict_get (NP self) "tau_m" in
  let? ts := dict_get (NP self) "tau_syn" in
  let? tr := dict_get (NP self) "t_ref" in
  let? theta := dict_get (NP self) "theta" in
  let? vr := dict_get (NP self) "V_reset" in
  Ok (helpers_nu0_fb h mu sigma (tm * 1e-3) (ts * 1e-3) (tr * 1e-3) theta vr).

(** [Phi] returns the new rates alone, or with [mu] and [sigma].  With
    [parallel] the rates come from [pool.map], which keeps the order of its
    input, as an ndarray that [-=] updates in place; otherwise they are a
    list and [-=] builds a new array. *)
Definition Phi (self : Theory) (rates : vec)
    (parallel return_mu_sigma return_leak : bool)
  : M (vec * option (vec * vec)) :=
  ms <- mu_sigma self rates true None None ;;
  let mu := fst ms in
  let sigma := snd ms in
  new_rates <- lift (mapM (nu0_fb self) (combine mu sigma)) ;;
  new_rates <-
    (if return_leak
     then lift ((if parallel then np_isub else np_sub) new_rates rates)
     else ret new_rates) ;;
  ret (new_rates, if return_mu_sigma then Some (mu, sigma) else None).

(** ** Generators of initial rates *)

(** A generator object: [(v for ii in range(remaining))], or the generator
    of [initial_rates], which has not started yet or is suspended at its
    [yield] with counter [n]. *)
Inductive generator : Type :=
| Gen_repeat (v : vec) (remaining : nat)
| Gen_initial_rates (started : bool) (n num_iter dim : nat) (rate_max : R)
    (rng_seed : Z).

(** [np.random.rand(dim)] *)
Fixpoint rand (dim : nat) (g : rng_state h) : vec * rng_state h :=
  match dim with
  | O => ([], g)
  | S d =>
      let (x, g1) := random_sample h g in
      let (xs, g2) := rand d g1 in
      (x :: xs, g2)
  end.

(** [np.random.seed(seed)] *)
Definition seed (sd : Z) : M unit :=
  if (Z.leb 0 sd && Z.ltb sd (2 ^ 32))%bool
  then set_np_random (np_random_seed h sd)
  else raise ValueError.

(** [Theory.initial_rates]: the call only builds the generator. *)
Definition initial_rates (self : Theory) (num_iter dim : nat) (mode : string)
    (rate_max : R) (rng_seed : Z) : generator :=
  Gen_initial_rates false 0 num_iter dim rate_max rng_seed.

(** [next(gen)] *)
Definition next (gen : generator) : M (vec * generator) :=
  match gen with
  | Gen_repeat v (S k) => ret (v, Gen_repeat v k)
  | Gen_repeat v O => raise StopIteration
  | Gen_initial_rates started n num_iter dim rate_max rng_seed =>
      _ <- (if started then ret tt else seed rng_seed) ;;
      let n' := if started then S n else n in
      if Nat.ltb n' num_iter then
        s <- get ;;
        let (v, g) := rand dim (np_random s) in
        _ <- set_np_random g ;;
        ret (scale rate_max v,
             Gen_initial_rates true n' num_iter dim rate_max rng_seed)
      else raise StopIteration
  end.

(** ** [Theory.integrate_siegert_python] *)

(** One pass of the integration loop: the value assigned to [y[i + 1, :]]. *)
Definition rk_step (self : Theory) (parallel : bool) (dt tau : R) (y_i : vec)
  : M vec :=
  r1 <- Phi self y_i parallel true true ;;
  let k1 := fst r1 in
  c2 <- lift (py_div (dt * 1e-3) tau) ;;
  a2 <- lift (np_add y_i (scale (c2 / 2) k1)) ;;
  r2 <- Phi self a2 parallel false true ;;
  let k2 := fst r2 in
  c3 <- lift (py_div (dt * 1e-3) tau) ;;
  a3 <- lift (np_add y_i (scale (c3 / 2) k2)) ;;
  r3 <- Phi self a3 parallel false true ;;
  let k3 := fst r3 in
  c4 <- lift (py_div (dt * 1e-3) tau) ;;
  a4 <- lift (np_add y_i (scale c4 k3)) ;;
  r4 <- Phi self a4 parallel false true ;;
  let k4 := fst r4 in
  s1 <- lift (np_add k1 (scale 2 k2)) ;;
  s2 <- lift (np_add s1 (scale 2 k3)) ;;
  s3 <- lift (np_add s2 k4) ;;
  lift (np_add y_i (map (fun x => x / tau) (scale (dt * 1e-3 / 6) s3))).

(** [for i, tl in enumerate(self.t[:-1])], [steps] passes from index [i] *)
Fixpoint integration_loop (self : Theory) (parallel : bool) (dt tau : R)
    (steps i : nat) (y : matrix R) : M (matrix R) :=
  match steps with
  | O => ret y
  | S k =>
      new <- rk_step self parallel dt tau (nth i (m_rows y) []) ;;
      y' <- lift (set_row y (S i) new) ;;
      integration_loop self parallel dt tau k (S i) y'
  end.

(** [for nsim in range(num_iter)]; what the loops print is not part of the
    model. *)
Fixpoint simulations (self : Theory) (full_output parallel : bool)
    (dim : nat) (tau : R) (num_iter : nat) (gen : generator)
    (rates : list (matrix R)) : M (list (matrix R)) :=
  match num_iter with
  | O => ret rates
  | S k =>
      ig <- next gen ;;
      t <- lift (np_arange (T (params self)) (dt (params self))) ;;
      _ <- setattr "t" (PVec t) ;;
      y <- lift (set_row (mkmat dim (repeat (np_zeros dim) (length t)))
                         0 (fst ig)) ;;
      y <- integration_loop self parallel (dt (params self)) tau
             (pred (length t)) 0 y ;;
      r <- (if full_output then ret (transpose y)
            else lift (first_last_cols (transpose y))) ;;
      simulations self full_output parallel dim tau k (snd ig) (rates ++ [r])
  end.

Inductive integrate_result : Type :=
| One (structure_vec : list string) (rates : matrix R)
| Many (structure_vec : list string) (rates : list (matrix R)).

(** An array compared with ['random_uniform'] is taken to be different from
    it, as numpy's elementwise comparison with a string answered at the time
    of the code; the array then reaches the [isinstance] branch. *)
Definition integrate_siegert_python (self : Theory)
    (full_output parallel : bool) : M integrate_result :=
  let p := params self in
  s <- get ;;
  let K := K_matrix s in
  tm <- lift (dict_get (NP self) "tau_m") ;;
  let tau := tm * 1e-3 in
  let dim := shape0 K in
  let chosen :=
    match initial_rates_p p with
    | IR_None => Some (1%nat, Gen_repeat (np_zeros dim) 1)
    | IR_str mode =>
        if String.eqb mode "random_uniform"
        then Some (initial_rates_iter p,
                   initial_rates self (initial_rates_iter p) dim mode 1000 123)
        else None
    | IR_array v => Some (1%nat, Gen_repeat v 1)
    end in
  match chosen with
  | None => raise (UnboundLocalError "num_iter")
  | Some (num_iter, gen) =>
      rates <- simulations self full_output parallel dim tau num_iter gen [] ;;
      if Nat.eqb num_iter 1 then
        match rates with
        | r :: _ => ret (One (structure_vec (network self)) r)
        | [] => raise IndexError
        end
      else ret (Many (structure_vec (network self)) rates)
  end.

(** ** [Theory.stability_matrix] *)

(** [for ii in range(N.size): N_pre[ii] = N; N_post[:, ii] = N] *)
Fixpoint fill_pre_post (N : vec) (count ii : nat) (pre post : matrix R)
  : result (matrix R * matrix R) :=
  match count with
  | O => Ok (pre, post)
  | S k =>
      let? pre' := set_row pre ii N in
      let? post' := set_col post ii N in
      fill_pre_post N k (S ii) pre' post'
  end.

(** [C = 1. - (1. - 1. / (N_pre * N_post)) ** (K * N_post)] *)
Definition connection_probability (K N_pre N_post : matrix R)
  : result (matrix R) :=
  let? NN := mat_mul N_pre N_post in
  let base := mat_map (fun x => 1 - 1 / x) NN in
  let? expo := mat_mul K N_post in
  let? pw := mat_zip ValueError np_power base expo in
  Ok (mat_map (fun x => 1 - x) pw).

(** One entry of [slope], and of [slope_sigma] before its rescaling. *)
Definition derivative_at (self : Theory)
    (d : R -> R -> R -> R -> R -> R -> R -> R) (mu sigma : vec) (ii : nat)
  : result R :=
  let? tm := dict_get (NP self) "tau_m" in
  let? ts := dict_get (NP self) "tau_syn" in
  let? tr := dict_get (NP self) "t_ref" in
  let? vth := dict_get (NP self) "V_th" in
  let? vr := dict_get (NP self) "V_reset" in
  let? m := index mu ii in
  let? sg := index sigma ii in
  Ok (d (1e-3 * tm) (1e-3 * ts) (1e-3 * tr) vth vr m sg).

(** [for ii in range(N.size): slope_matrix[:, ii] = slope;
    slope_sigma_matrix[:, ii] = slope_sigma] *)
Fixpoint fill_slopes (slope slope_sigma : vec) (count ii : nat)
    (sm ssm : matrix R) : result (matrix R * matrix R) :=
  match count with
  | O => Ok (sm, ssm)
  | S k =>
      let? sm' := set_col sm ii slope in
      let? ssm' := set_col ssm ii slope_sigma in
      fill_slopes slope slope_sigma k (S ii) sm' ssm'
  end.

(** The matrix [M], or the tuple of the full output.  The argument
    [replace_cc] of the method is accepted and never read; it is left out
    here and in [lambda_max]. *)
Inductive stability_result : Type :=
| SM (M : matrix R)
| SM_full (items : list pyval).

Definition stability_matrix (self : Theory) (rates : vec)
    (matrix_filter : option (matrix bool)) (vector_filter : option (list bool))
    (full_output : bool) : M stability_result :=
  let net := network self in
  '(N, K, J) <-
    match matrix_filter with
    | Some mf =>
        match vector_filter with
        | None => raise AssertionError
        | Some vf =>
            s <- get ;;
            Nf <- lift (bool_index (N_vec net) vf) ;;
            K_sel <- lift (mask_select (K_matrix s) mf) ;;
            if negb (Nat.eqb (length Nf * (length Nf + 1)) (length K_sel))
            then raise AssertionError
            else
              N <- lift (bool_index (N_vec net) vf) ;;
              K_sel <- lift (mask_select (K_matrix s) mf) ;;
              K <- lift (reshape K_sel (length N) (Z.of_nat (length N + 1))) ;;
              J_sel <- lift (mask_select (J_matrix s) mf) ;;
              J <- lift (reshape J_sel (length N) (Z.of_nat (length N + 1))) ;;
              ret (N, drop_last_col K, drop_last_col J)
        end
    | None =>
        s <- get ;;
        ret (N_vec net, drop_last_col (K_matrix s), drop_last_col (J_matrix s))
    end ;;
  '(N_pre, N_post) <-
    lift (fill_pre_post N (length N) 0 (np_zeros_like2 K) (np_zeros_like2 K)) ;;
  C <- lift (connection_probability K N_pre N_post) ;;
  ms <- mu_sigma self rates true None None ;;
  '(mu, sigma) <-
    match vector_filter with
    | Some vf =>
        mu <- lift (bool_index (fst ms) vf) ;;
        sigma <- lift (bool_index (snd ms) vf) ;;
        ret (mu, sigma)
    | None => ret ms
    end ;;
  slope <-
    lift (mapM (derivative_at self (helpers_d_nu_d_mu_fb_numeric h) mu sigma)
               (seq 0 (length N))) ;;
  slope_sigma <-
    lift (mapM (fun ii =>
                  let? d := derivative_at self
                              (helpers_d_nu_d_sigma_fb_numeric h) mu sigma ii in
                  let? sg := index sigma ii in
                  Ok (d * 1 / (2 * sg)))
               (seq 0 (length N))) ;;
  '(slope_matrix, slope_sigma_matrix) <-
    lift (fill_slopes slope slope_sigma (length N) 0
            (np_zeros_like2 J) (np_zeros_like2 J)) ;;
  V <- lift (mat_mul C (mat_map (fun x => 1 - x) C)) ;;
  tm <- lift (dict_get (NP self) "tau_m") ;;
  sJ <- lift (mat_mul slope_matrix J) ;;
  ssJ2 <- lift (mat_mul slope_sigma_matrix (mat_map (fun x => x ^ 2) J)) ;;
  inner <- lift (mat_add sJ ssJ2) ;;
  let G := mat_map (fun x => (tm * 1e-3) ^ 2 * x ^ 2) inner in
  G_N <- lift (mat_mul N_pre G) ;;
  M <- lift (mat_mul G_N V) ;;
  if full_output
  then ret (SM_full [PMat M; PVec slope; PVec slope_sigma; PMat M; PMat C;
                     PMat V; PMat G_N; PMat J; PMat N_pre])
  else ret (SM M).

(** ** [Theory.lambda_max] *)

Inductive lambda_result : Type :=
| LM (lambda_max : R)
| LM_full (lambda_max : R) (slope slope_sigma M : pyval) (EV : eig_result h)
    (C V : pyval).

(** [EV = np.linalg.eig(M); np.sqrt(np.max(np.real(EV[0])))] *)
Definition spectral_radius (M : pyval) : result (R * eig_result h) :=
  match M with
  | PMat m =>
      let? EV := np_linalg_eig h m in
      let? mx := np_max (eig_real h EV) in
      Ok (sqrt mx, EV)
  | _ => Raise LinAlgError
  end.

Definition lambda_max (self : Theory) (rates : vec)
    (matrix_filter : option (matrix bool)) (vector_filter : option (list bool))
    (full_output : bool) : M lambda_result :=
  r <- stability_matrix self rates matrix_filter vector_filter full_output ;;
  if full_output then
    (* (M, slope, slope_sigma, M, EV, C, V, G_N) = stability_matrix(...) *)
    match r with
    | SM_full [_; slope; slope_sigma; M; _; C; V; _] =>
        lev <- lift (spectral_radius M) ;;
        ret (LM_full (fst lev) slope slope_sigma M (snd lev) C V)
    | _ => raise ValueError
    end
  else
    match r with
    | SM M => lev <- lift (spectral_radius (PMat M)) ;; ret (LM (fst lev))
    | SM_full _ => raise LinAlgError
    end.

End TheoryClass.

Arguments np_power : simpl never.
Arguments py_div : simpl never.
Arguments broadcast2 : simpl never.
Arguments np_isub : simpl never.
Arguments np_dot : simpl never.
Arguments np_arange : simpl never.

(** * Properties *)

Local Open Scope string_scope.
Local Open Scope list_scope.
Local Open Scope R_scope.

(** ** Arrays *)

Lemma zip_with_length {A B C : Type} (f : A -> B -> C) (a : list A)
    (b : list B) :
  length (zip_with f a b) = Nat.min (length a) (length b).
Proof.
  revert b; induction a as [|x a IH]; intros [|y b]; simpl; auto.
Qed.

Lemma zip_with_same {A C : Type} (f : A -> A -> C) (a : list A) :
  zip_with f a a = map (fun x => f x x) a.
Proof.
  induction a as [|x a IH]; simpl; congruence.
Qed.

Lemma zip_with_nth {A B C : Type} (f : A -> B -> C) (a : list A) (b : list B)
    (i : nat) (da : A) (db : B) (dc : C) :
  (i < length a)%nat -> (i < length b)%nat ->
  nth i (zip_with f a b) dc = f (nth i a da) (nth i b db).
Proof.
  revert b i; induction a as [|x a IH]; intros [|y b] [|i]; simpl;
    intros Ha Hb; try lia; auto.
  apply IH; lia.
Qed.

Lemma zip_with_map_l {A A' B C : Type} (f : A' -> B -> C) (g : A -> A')
    (a : list A) (b : list B) :
  zip_with f (map g a) b = zip_with (fun x y => f (g x) y) a b.
Proof.
  revert b; induction a as [|x a IH]; intros [|y b]; simpl; auto.
  now rewrite IH.
Qed.

Lemma zip_with_map_r {A B B' C : Type} (f : A -> B' -> C) (g : B -> B')
    (a : list A) (b : list B) :
  zip_with f a (map g b) = zip_with (fun x y => f x (g y)) a b.
Proof.
  revert b; induction a as [|x a IH]; intros [|y b]; simpl; auto.
  now rewrite IH.
Qed.

Lemma zip_with_ext {A B C : Type} (f g : A -> B -> C) (a : list A)
    (b : list B) :
  (forall x y, In x a -> In y b -> f x y = g x y) ->
  zip_with f a b = zip_with g a b.
Proof.
  revert b; induction a as [|x a IH]; intros [|y b] H; simpl; auto.
  rewrite H by (simpl; auto). f_equal. apply IH.
  intros; apply H; simpl; auto.
Qed.

Lemma zip_with_repeat_r {A B C : Type} (f : A -> B -> C) (a : list A) (y : B) :
  zip_with f a (repeat y (length a)) = map (fun x => f x y) a.
Proof.
  induction a as [|x a IH]; simpl; congruence.
Qed.

Lemma broadcast2_same_length (f : R -> R -> R) (a b : vec) :
  length a = length b -> broadcast2 f a b = Ok (zip_with f a b).
Proof.
  intros H. unfold broadcast2.
  destruct a as [|x [|x' a]]; destruct b as [|y [|y' b]]; simpl in *;
    try discriminate; auto.
  injection H as H. rewrite H, Nat.eqb_refl. reflexivity.
Qed.

Lemma np_isub_same_length (a b : vec) :
  length a = length b -> np_isub a b = Ok (zip_with Rminus a b).
Proof.
  intros H. unfold np_isub.
  destruct a as [|x [|x' a]]; destruct b as [|y [|y' b]]; simpl in *;
    try discriminate; auto.
  injection H as H. rewrite H, Nat.eqb_refl. reflexivity.
Qed.

Lemma same_shape_refl {T : Type} (A : matrix T) : same_shape A A = true.
Proof.
  unfold same_shape. now rewrite !Nat.eqb_refl.
Qed.

Lemma same_shape_eq {S T : Type} (A : matrix S) (B : matrix T) :
  same_shape A B = true <-> shape0 A = shape0 B /\ shape1 A = shape1 B.
Proof.
  unfold same_shape. rewrite andb_true_iff, !Nat.eqb_eq. tauto.
Qed.

Lemma mat_zip_ok {S T U : Type} (e : exn) (f : S -> T -> U) (A : matrix S)
    (B : matrix T) :
  same_shape A B = true ->
  mat_zip e f A B
  = Ok (mkmat (m_cols A) (zip_with (zip_with f) (m_rows A) (m_rows B))).
Proof.
  intros H. unfold mat_zip. now rewrite H.
Qed.

Lemma mat_zip_shape {S T U : Type} (e : exn) (f : S -> T -> U) (A : matrix S)
    (B : matrix T) (C : matrix U) :
  mat_zip e f A B = Ok C -> shape0 C = shape0 A /\ shape1 C = shape1 A.
Proof.
  unfold mat_zip. destruct (same_shape A B) eqn:E; [|discriminate].
  intros [= <-]. apply same_shape_eq in E. destruct E as [E0 E1].
  unfold shape0, shape1 in *; simpl. rewrite zip_with_length. lia.
Qed.

Lemma np_dot_ok (A : matrix R) (v : vec) :
  m_cols A = length v ->
  np_dot A v = Ok (map (fun r => sum (zip_with Rmult r v)) (m_rows A)).
Proof.
  intros H. unfold np_dot. now rewrite H, Nat.eqb_refl.
Qed.

Lemma py_div_ok (x y : R) : y <> 0 -> py_div x y = Ok (x / y).
Proof.
  intros H. unfold py_div. destruct (Req_dec_T y 0); [contradiction|reflexivity].
Qed.

Lemma py_div_zero (x : R) : py_div x 0 = Raise ZeroDivisionError.
Proof.
  unfold py_div. destruct (Req_dec_T 0 0); [reflexivity|contradiction].
Qed.

Lemma dict_get_NP_tau_m (net : Network) (p : TheoryParams) :
  dict_get (NP (Theory_init net p)) "tau_m" = Ok (tau_m p).
Proof. reflexivity. Qed.

(** ** The statistics mapper without override *)

Section Mapper.

Variable h : Helpers.

(** The input statistics in closed form: row [i] of [K] and [J], the rates
    with the external rate appended, and entry [i] of the DC drive. *)
Definition mean_input (tm q : R) (K J : matrix R) (rates_ext DC : vec) : vec :=
  zip_with (fun kj dc => tm * 1e-3 * sum (zip_with Rmult kj rates_ext) + 0
                         + q * dc)
           (zip_with (zip_with Rmult) (m_rows K) (m_rows J)) DC.

Definition std_input (tm : R) (K J : matrix R) (rates_ext : vec) : vec :=
  map (fun kj2 => sqrt (tm * 1e-3 * sum (zip_with Rmult kj2 rates_ext) + 0))
      (zip_with (zip_with Rmult) (m_rows K)
                (zip_with (zip_with Rmult) (m_rows J) (m_rows J))).

Lemma mean_input_sum (c q : R) (F : vec -> R) (X : list vec) (DC : vec)
    (n : nat) :
  length X = n -> length DC = n ->
  zip_with Rplus (zip_with Rplus (scale c (map F X)) (np_zeros n)) (scale q DC)
  = zip_with (fun x dc => c * F x + 0 + q * dc) X DC.
Proof.
  revert DC n; induction X as [|x X IH]; intros [|d DC] [|n]; simpl;
    intros HX HD; try discriminate; auto.
  f_equal. apply IH; congruence.
Qed.

Lemma std_input_sum (c : R) (F : vec -> R) (X : list vec) (n : nat) :
  length X = n ->
  np_sqrt (zip_with Rplus (scale c (map F X)) (np_zeros n))
  = map (fun x => sqrt (c * F x + 0)) X.
Proof.
  revert n; induction X as [|x X IH]; intros [|n]; simpl;
    intros HX; try discriminate; auto.
  f_equal. apply IH; congruence.
Qed.

Lemma mu_sigma_no_override (self : Theory) (rates : vec)
    (vector_filter : option (list bool)) (s : store h) (tm : R) :
  in_strings (replace_cc (network self))
             ["hom_poisson_stat"; "het_poisson_stat"] = false ->
  same_shape (K_matrix h s) (J_matrix h s) = true ->
  shape0 (K_matrix h s) = length rates ->
  shape1 (K_matrix h s) = S (length rates) ->
  length (add_DC_drive (network self)) = length rates ->
  C_m (network self) <> 0 ->
  dict_get (NP self) "tau_m" = Ok tm ->
  mu_sigma h self rates true None vector_filter s
  = (Ok (mean_input tm (tm / C_m (network self)) (K_matrix h s) (J_matrix h s)
           (rates ++ [rate_ext (params self)]) (add_DC_drive (network self)),
         std_input tm (K_matrix h s) (J_matrix h s)
           (rates ++ [rate_ext (params self)])), s).
Proof.
  intros Hcc Hsh H0 H1 Hdc HCm Htm.
  unfold mu_sigma, bind, lift, ret, get, read_ref. rewrite Hcc. simpl.
  unfold mat_mul.
  rewrite (mat_zip_ok _ _ _ _ Hsh), (mat_zip_ok _ _ _ _ (same_shape_refl _)).
  simpl.
  pose proof (proj1 (same_shape_eq _ _) Hsh) as [HJ0 HJ1].
  unfold shape0, shape1 in *.
  rewrite mat_zip_ok
    by (apply same_shape_eq; unfold shape0, shape1; simpl;
        rewrite zip_with_length; lia).
  rewrite Htm. unfold np_hstack.
  rewrite !np_dot_ok by (simpl; rewrite length_app; simpl; lia).
  simpl.
  assert (HKJ : length (zip_with (zip_with Rmult) (m_rows (K_matrix h s))
                          (m_rows (J_matrix h s))) = length rates)
    by (rewrite zip_with_length; lia).
  assert (HKJ2 : length (zip_with (zip_with Rmult) (m_rows (K_matrix h s))
                   (zip_with (zip_with Rmult) (m_rows (J_matrix h s))
                      (m_rows (J_matrix h s)))) = length rates)
    by (rewrite !zip_with_length; lia).
  unfold np_add, np_zeros_like.
  rewrite broadcast2_same_length
    by (unfold scale, np_zeros; rewrite !length_map, repeat_length; lia).
  rewrite (py_div_ok _ _ HCm).
  rewrite broadcast2_same_length
    by (unfold scale, np_zeros;
        rewrite zip_with_length, !length_map, repeat_length; lia).
  rewrite broadcast2_same_length
    by (unfold scale, np_zeros; rewrite !length_map, repeat_length; lia).
  unfold mean_input, std_input.
  rewrite (mean_input_sum _ _ _ _ _ (length rates)) by assumption.
  rewrite (std_input_sum _ _ _ (length rates)) by assumption.
  reflexivity.
Qed.

End Mapper.

(** ** A concrete instance

    Two areas of one population each, and collaborators that can be run: a
    linear congruential generator for [np.random], masks computed from the
    structure, a transfer function that returns its mean input. *)

(** The area of each population, in the order of the structure. *)
Definition ex_areas_of (st : dict (list string)) : list string :=
  flat_map (fun ap => map (fun _ => fst ap) (snd ap)) st.

Definition ex_targeted (targets : option (list string)) (a : string) : bool :=
  match targets with
  | None => true
  | Some l => existsb (String.eqb a) l
  end.

Definition ex_create_mask (st : dict (list string))
    (targets : option (list string)) : matrix bool :=
  let areas := ex_areas_of st in
  mkmat (S (length areas))
    (map (fun ai =>
            map (fun aj => negb (String.eqb ai aj) && ex_targeted targets ai)
                areas ++ [false])
         areas).

Definition ex_create_vector_mask (st : dict (list string))
    (areas : list string) : list bool :=
  map (fun a => existsb (String.eqb a) areas) (ex_areas_of st).

Definition ex_load_rates (path : string) (areas : list string)
    (st : dict (list string)) : result vec :=
  if String.eqb path "rates.json" then Ok [3; 4] else Raise IOError.

(** The eigenvalues of a triangular matrix: its diagonal. *)
Definition ex_eig (m : matrix R) : result vec :=
  if Nat.eqb (shape0 m) (shape1 m)
  then Ok (map (fun i => mget m i i) (seq 0 (shape0 m)))
  else Raise LinAlgError.

Definition ex_random_sample (g : Z) : R * Z :=
  (IZR (g mod 1024) / 1024, ((g * 1103515245 + 12345) mod 2147483648)%Z).

Lemma ex_random_sample_range (g : Z) : 0 <= fst (ex_random_sample g) < 1.
Proof.
  unfold ex_random_sample; simpl.
  pose proof (Z.mod_pos_bound g 1024 ltac:(lia)) as [Hlo Hhi].
  apply IZR_le in Hlo. apply IZR_lt in Hhi.
  split.
  - apply Rmult_le_reg_r with 1024; [lra|].
    unfold Rdiv. rewrite Rmult_assoc, Rinv_l by lra. lra.
  - apply Rmult_lt_reg_r with 1024; [lra|].
    unfold Rdiv. rewrite Rmult_assoc, Rinv_l by lra. lra.
Qed.

Definition ex_helpers : Helpers :=
  {| helpers_nu0_fb := fun mu sigma _ _ _ _ _ => mu;
     helpers_d_nu_d_mu_fb_numeric := fun _ _ _ _ _ mu sigma => 1;
     helpers_d_nu_d_sigma_fb_numeric := fun _ _ _ _ _ mu sigma => sigma;
     helpers_create_mask := ex_create_mask;
     helpers_create_vector_mask := ex_create_vector_mask;
     helpers_load_rates := ex_load_rates;
     eig_result := vec;
     np_linalg_eig := ex_eig;
     eig_real := fun ev => ev;
     rng_state := Z;
     np_random_seed := fun sd => sd;
     random_sample := ex_random_sample;
     random_sample_range := ex_random_sample_range |}.

Definition ex_params : TheoryParams :=
  {| dt := 1; T := 3; initial_rates_p := IR_None; initial_rates_iter := 2;
     rate_ext := 10; V_th := -50; V_reset := -65; E_L := -65; tau_m := 10;
     tau_syn_ex := 1 / 2; t_ref := 2 |}.

Definition ex_network (cc : option string) : Network :=
  {| N_vec := [2; 3];
     add_DC_drive := [0; 0];
     structure := [("V1", ["23E"]); ("V2", ["23E"])];
     structure_vec := ["V1-23E"; "V2-23E"];
     area_list := ["V1"; "V2"];
     replace_cc := cc;
     replace_cc_input_source := "rates.json";
     net_rate_ext := 10;
     C_m := 250 |}.

Definition ex_theory (cc : option string) : Theory :=
  Theory_init (ex_network cc) ex_params.

Definition ex_K : matrix R := mkmat 3 [[10; 5; 1]; [5; 10; 1]].
Definition ex_J : matrix R := mkmat 3 [[1; 2; 1]; [2; 1; 1]].

Definition ex_store : store ex_helpers :=
  mkstore ex_helpers ex_K ex_J 0%Z [].

(** A network without populations. *)
Definition empty_network : Network :=
  {| N_vec := []; add_DC_drive := []; structure := []; structure_vec := [];
     area_list := []; replace_cc := None; replace_cc_input_source := "";
     net_rate_ext := 10; C_m := 250 |}.

Definition empty_theory : Theory := Theory_init empty_network ex_params.

Definition empty_store : store ex_helpers :=
  mkstore ex_helpers (mkmat 1 []) (mkmat 1 []) 0%Z [].

Arguments mu_sigma : simpl never.

Lemma ex_mu_sigma_ok (cc : option string) (vf : option (list bool))
    (rates : vec) :
  in_strings cc ["hom_poisson_stat"; "het_poisson_stat"] = false ->
  length rates = 2%nat ->
  mu_sigma ex_helpers (ex_theory cc) rates true None vf ex_store
  = (Ok (mean_input 10 (10 / 250) ex_K ex_J (rates ++ [10]) [0; 0],
         std_input 10 ex_K ex_J (rates ++ [10])), ex_store).
Proof.
  intros Hcc Hlen.
  apply (mu_sigma_no_override ex_helpers (ex_theory cc)); simpl; auto;
    try lra; rewrite Hlen; reflexivity.
Qed.

(** C1: on the two-population network, [stability_matrix] looks up the key
    ['V_th'] in the neuron parameters stored by [__init__], which hold the
    threshold under ['theta'], and raises [KeyError] instead of returning
    the stability matrix. *)
Theorem stability_matrix_KeyError_V_th :
  stability_matrix ex_helpers (ex_theory None) [1; 2] None None false ex_store
  = (Raise (KeyError "V_th"), ex_store).
Proof.
  unfold stability_matrix, bind, lift, ret, get. simpl.
  rewrite ex_mu_sigma_ok by reflexivity.
  reflexivity.
Qed.

(** C2: with [external=False], [mu_sigma] reads the attribute [dim_ext],
    which no method of the class ever sets, and raises [AttributeError]
    instead of appending a zero. *)
Theorem mu_sigma_external_False_AttributeError :
  mu_sigma ex_helpers (ex_theory None) [1; 2] false None None ex_store
  = (Raise (AttributeError "dim_ext"), ex_store).
Proof. reflexivity. Qed.

Ltac run_py :=
  repeat first
    [ progress simpl
    | progress unfold np_add, np_sub, broadcast2, np_isub, np_dot
    | rewrite py_div_ok by lra ].

Ltac run_store :=
  unfold bind, lift, ret, raise, get, getattr_vec, getattr, setattr,
    set_K_matrix, set_np_random, read_ref, zero_ref.

(** C3: with the homogeneous override and no matrix filter, [mu_sigma]
    zeroes the cortico-cortical entries of the network's own [K_matrix]:
    the matrix after the call differs from the matrix before it. *)
Theorem mu_sigma_zeroes_shared_K_matrix :
  K_matrix ex_helpers
    (snd (mu_sigma ex_helpers (ex_theory (Some "hom_poisson_stat")) [1; 2]
            true None None ex_store))
  = mkmat 3 [[10; 0; 1]; [0; 10; 1]]
  /\ K_matrix ex_helpers
       (snd (mu_sigma ex_helpers (ex_theory (Some "hom_poisson_stat")) [1; 2]
               true None None ex_store))
     <> K_matrix ex_helpers ex_store.
Proof.
  assert (E : K_matrix ex_helpers
    (snd (mu_sigma ex_helpers (ex_theory (Some "hom_poisson_stat")) [1; 2]
            true None None ex_store))
    = mkmat 3 [[10; 0; 1]; [0; 10; 1]]).
  { unfold mu_sigma, replace_cc_input, replace_cc_areas, replace_cc_area.
    run_store. run_py. reflexivity. }
  split; [exact E|]. rewrite E. simpl. unfold ex_K.
  intros [= H5 H5']. lra.
Qed.

(** C5: on the network without populations, [stability_matrix] called with
    a vector filter and no matrix filter returns a matrix: the pairing of
    the filters is only asserted when a matrix filter is given. *)
Theorem stability_matrix_vector_filter_alone_returns :
  stability_matrix ex_helpers empty_theory [] None (Some []) false empty_store
  = (Ok (SM (mkmat 0 [])), empty_store).
Proof.
  unfold stability_matrix, mu_sigma. run_store. run_py. reflexivity.
Qed.

(** ** The full output of the stability analysis *)

Ltac split_match H :=
  repeat (match type of H with
          | context [match ?x with _ => _ end] => destruct x eqn:?
          end; try discriminate H).

Lemma stability_matrix_full_output_items (h : Helpers) (self : Theory)
    (rates : vec) (mf : option (matrix bool)) (vf : option (list bool))
    (s s' : store h) (r : stability_result) :
  stability_matrix h self rates mf vf true s = (Ok r, s') ->
  exists items, r = SM_full items /\ length items = 9%nat.
Proof.
  unfold stability_matrix, bind, lift, ret, raise, get. intros H.
  split_match H.
  all: injection H as <- _; eexists; split; reflexivity.
Qed.

(** C6: [lambda_max] with [full_output=True] never returns: it unpacks
    eight values from the nine that [stability_matrix] returns. *)
Theorem lambda_max_full_output_raises (h : Helpers) (self : Theory)
    (rates : vec) (mf : option (matrix bool)) (vf : option (list bool))
    (s : store h) :
  is_ok (fst (lambda_max h self rates mf vf true s)) = false.
Proof.
  unfold lambda_max, bind.
  destruct (stability_matrix h self rates mf vf true s) as [[r|e] s'] eqn:E;
    [|reflexivity].
  apply stability_matrix_full_output_items in E.
  destruct E as (items & -> & Hlen).
  do 9 (destruct items as [|? items]; try discriminate Hlen).
  destruct items; [reflexivity|discriminate Hlen].
Qed.

(** On the network without populations the call reaches the unpacking and
    raises there. *)
Lemma lambda_max_full_output_ValueError :
  lambda_max ex_helpers empty_theory [] None None true empty_store
  = (Raise ValueError, empty_store).
Proof.
  unfold lambda_max, stability_matrix, mu_sigma. run_store. run_py.
  reflexivity.
Qed.

(** ** The override modes *)

(** The theory of the same network with another value of
    [connection_params['replace_cc']]. *)
Definition with_replace_cc (self : Theory) (cc : option string) : Theory :=
  {| params := params self;
     network :=
       {| N_vec := N_vec (network self);
          add_DC_drive := add_DC_drive (network self);
          structure := structure (network self);
          structure_vec := structure_vec (network self);
          area_list := area_list (network self);
          replace_cc := cc;
          replace_cc_input_source := replace_cc_input_source (network self);
          net_rate_ext := net_rate_ext (network self);
          C_m := C_m (network self) |};
     NP := NP self |}.

Section Nonstat.

Variable h : Helpers.
Variable self : Theory.

Let nonstat := with_replace_cc self (Some "het_current_nonstat").
Let disabled := with_replace_cc self None.

Lemma mu_sigma_nonstat (rates : vec) (external : bool)
    (mf : option (matrix bool)) (vf : option (list bool)) (s : store h) :
  mu_sigma h nonstat rates external mf vf s
  = mu_sigma h disabled rates external mf vf s.
Proof. reflexivity. Qed.

Lemma Phi_nonstat (rates : vec) (parallel rms leak : bool) (s : store h) :
  Phi h nonstat rates parallel rms leak s
  = Phi h disabled rates parallel rms leak s.
Proof. reflexivity. Qed.

Lemma rk_step_nonstat (parallel : bool) (dt tau : R) (y : vec) (s : store h) :
  rk_step h nonstat parallel dt tau y s = rk_step h disabled parallel dt tau y s.
Proof. reflexivity. Qed.

Lemma integration_loop_nonstat (parallel : bool) (dt tau : R) (steps i : nat)
    (y : matrix R) (s : store h) :
  integration_loop h nonstat parallel dt tau steps i y s
  = integration_loop h disabled parallel dt tau steps i y s.
Proof.
  revert i y s; induction steps as [|k IH]; intros i y s; [reflexivity|].
  simpl. unfold bind. rewrite rk_step_nonstat.
  destruct (rk_step h disabled parallel dt tau (nth i (m_rows y) []) s)
    as [[new|e] s1]; [|reflexivity].
  destruct (lift h (set_row y (S i) new) s1) as [[y'|e] s2]; [|reflexivity].
  apply IH.
Qed.

Lemma simulations_nonstat (full_output parallel : bool) (dim : nat) (tau : R)
    (num_iter : nat) (gen : generator) (rates : list (matrix R))
    (s : store h) :
  simulations h nonstat full_output parallel dim tau num_iter gen rates s
  = simulations h disabled full_output parallel dim tau num_iter gen rates s.
Proof.
  revert gen rates s; induction num_iter as [|k IH]; intros gen rates s;
    [reflexivity|].
  simpl. unfold bind.
  destruct (next h gen s) as [[ig|e] s1]; [|reflexivity].
  change (params nonstat) with (params disabled).
  destruct (lift h (np_arange _ _) s1) as [[t|e] s1']; [|reflexivity].
  destruct (setattr h "t" _ s1') as [[u|e] s2]; [|reflexivity].
  destruct (lift h (set_row _ 0 (fst ig)) s2) as [[y|e] s3]; [|reflexivity].
  change (params nonstat) with (params disabled).
  rewrite integration_loop_nonstat.
  destruct (integration_loop h disabled parallel _ tau _ 0 y s3)
    as [[y'|e] s4]; [|reflexivity].
  destruct full_output.
  - apply IH.
  - destruct (lift h (first_last_cols (transpose y')) s4) as [[r|e] s5];
      [apply IH|reflexivity].
Qed.

Lemma integrate_siegert_python_nonstat (full_output parallel : bool)
    (s : store h) :
  integrate_siegert_python h nonstat full_output parallel s
  = integrate_siegert_python h disabled full_output parallel s.
Proof.
  unfold integrate_siegert_python, bind.
  destruct (get h s) as [[s0|e] s1]; [|reflexivity].
  change (NP nonstat) with (NP disabled).
  destruct (lift h (dict_get (NP disabled) "tau_m") s1) as [[tm|e] s2];
    [|reflexivity].
  change (params nonstat) with (params disabled).
  destruct (initial_rates_p (params disabled)) as [|mode|v];
    cbv beta iota zeta.
  - rewrite simulations_nonstat. reflexivity.
  - destruct (String.eqb mode "random_uniform"); [|reflexivity].
    unfold initial_rates. rewrite simulations_nonstat. reflexivity.
  - rewrite simulations_nonstat. reflexivity.
Qed.

End Nonstat.

(** C4: with [replace_cc = 'het_current_nonstat'] the statistics mapper and
    the Python integration do what they do with the override disabled, and
    on the two-population network [mu_sigma] returns input statistics: no
    error is raised for the unsupported mode. *)
Theorem het_current_nonstat_treated_as_disabled :
  (forall (h : Helpers) (self : Theory) (rates : vec) (external : bool)
          (mf : option (matrix bool)) (vf : option (list bool)) (s : store h),
      mu_sigma h (with_replace_cc self (Some "het_current_nonstat"))
               rates external mf vf s
      = mu_sigma h (with_replace_cc self None) rates external mf vf s)
  /\ (forall (h : Helpers) (self : Theory) (full_output parallel : bool)
             (s : store h),
        integrate_siegert_python h
          (with_replace_cc self (Some "het_current_nonstat"))
          full_output parallel s
        = integrate_siegert_python h (with_replace_cc self None)
            full_output parallel s)
  /\ is_ok (fst (mu_sigma ex_helpers (ex_theory (Some "het_current_nonstat"))
                   [1; 2] true None None ex_store)) = true.
Proof.
  split; [|split].
  - intros. apply mu_sigma_nonstat.
  - intros. apply integrate_siegert_python_nonstat.
  - rewrite ex_mu_sigma_ok by reflexivity. reflexivity.
Qed.

(** ** Connection probabilities *)

(** Lines 389 to 396 of [stability_matrix]: the matrices of presynaptic and
    postsynaptic sizes and the connection probabilities built from them. *)
Definition pairwise_connection_probability (N : vec) (K : matrix R)
  : result (matrix R) :=
  let? pp := fill_pre_post N (length N) 0
               (np_zeros_like2 K) (np_zeros_like2 K) in
  connection_probability K (fst pp) (snd pp).

Definition square (n : nat) (K : matrix R) : Prop :=
  shape0 K = n /\ shape1 K = n /\ wf_matrix K.

Lemma broadcast_to_same (v : vec) : broadcast_to v (length v) = Ok v.
Proof.
  unfold broadcast_to. destruct v as [|x [|y v]]; auto.
  now rewrite Nat.eqb_refl.
Qed.

Lemma set_row_ok (A : matrix R) (i : nat) (v : vec) :
  (i < shape0 A)%nat -> length v = m_cols A ->
  set_row A i v = Ok (mkmat (m_cols A) (set_nth (m_rows A) i v)).
Proof.
  intros Hi Hv. unfold set_row.
  apply Nat.ltb_lt in Hi. rewrite Hi, <- Hv, broadcast_to_same. reflexivity.
Qed.

Lemma set_col_ok (A : matrix R) (j : nat) (v : vec) :
  (j < m_cols A)%nat -> length v = shape0 A ->
  set_col A j v
  = Ok (mkmat (m_cols A)
          (zip_with (fun r x => set_nth r j x) (m_rows A) v)).
Proof.
  intros Hj Hv. unfold set_col.
  apply Nat.ltb_lt in Hj. rewrite Hj, <- Hv, broadcast_to_same. reflexivity.
Qed.

Lemma set_nth_app {T : Type} (l1 l2 : list T) (x y : T) :
  set_nth (l1 ++ y :: l2) (length l1) x = l1 ++ x :: l2.
Proof.
  induction l1 as [|z l1 IH]; simpl; congruence.
Qed.

Lemma zip_with_map_same {A B C : Type} (f : B -> A -> C) (g : A -> B)
    (l : list A) :
  zip_with f (map g l) l = map (fun x => f (g x) x) l.
Proof.
  induction l as [|x l IH]; simpl; congruence.
Qed.

Lemma repeat_snoc {T : Type} (x : T) (n : nat) :
  repeat x n ++ [x] = repeat x (S n).
Proof.
  induction n as [|n IH]; simpl; [reflexivity|now rewrite IH].
Qed.

Lemma set_nth_repeat {T : Type} (a z : T) (n : nat) (l : list T) :
  set_nth (repeat a n ++ z :: l) n a = repeat a (S n) ++ l.
Proof.
  rewrite <- (repeat_length a n) at 2. rewrite set_nth_app.
  rewrite <- repeat_snoc, <- app_assoc. reflexivity.
Qed.

Lemma fill_pre_post_inv (N : vec) (k ii : nat) :
  (ii + k = length N)%nat ->
  fill_pre_post N k ii
    (mkmat (length N) (repeat N ii ++ repeat (np_zeros (length N)) k))
    (mkmat (length N) (map (fun x => repeat x ii ++ repeat 0 k) N))
  = Ok (mkmat (length N) (repeat N (length N)),
        mkmat (length N) (map (fun x => repeat x (length N)) N)).
Proof.
  revert ii; induction k as [|k IH]; intros ii Hn.
  - simpl. rewrite Nat.add_0_r in Hn. subst ii. rewrite app_nil_r.
    do 3 f_equal. apply map_ext. intros x. now rewrite app_nil_r.
  - cbn [fill_pre_post].
    rewrite set_row_ok
      by (unfold shape0; simpl;
          rewrite ?length_app, ?repeat_length; simpl; lia).
    cbn [rbind].
    rewrite set_col_ok
      by (unfold shape0; simpl; rewrite ?length_map; lia).
    cbn [rbind m_cols m_rows]. simpl repeat.
    rewrite zip_with_map_same, set_nth_repeat.
    rewrite (map_ext _ (fun x => repeat x (S ii) ++ repeat 0 k))
      by (intros x; apply set_nth_repeat).
    apply IH. lia.
Qed.

Lemma map_const_repeat {A B : Type} (b : B) (l : list A) :
  map (fun _ => b) l = repeat b (length l).
Proof.
  induction l as [|x l IH]; simpl; congruence.
Qed.

Lemma zeros_like2_rows (c : nat) (rows : list vec) :
  Forall (fun r => length r = c) rows ->
  map (map (fun _ => 0)) rows = repeat (np_zeros c) (length rows).
Proof.
  induction 1 as [|r rows Hr Hwf IH]; simpl; [reflexivity|].
  rewrite IH, map_const_repeat, Hr. reflexivity.
Qed.

Lemma zeros_like2_square (n : nat) (K : matrix R) :
  square n K -> np_zeros_like2 K = mkmat n (repeat (np_zeros n) n).
Proof.
  intros (H0 & H1 & Hwf). unfold np_zeros_like2, mat_map, shape0, shape1 in *.
  unfold wf_matrix in Hwf.
  rewrite (zeros_like2_rows _ _ Hwf), H1. do 2 f_equal. exact H0.
Qed.

Lemma nth_map_lt {A B : Type} (f : A -> B) (l : list A) (i : nat) (d : A)
    (d' : B) :
  (i < length l)%nat -> nth i (map f l) d' = f (nth i l d).
Proof.
  revert i; induction l as [|x l IH]; intros [|i]; simpl; intros Hi;
    try lia; auto.
  apply IH; lia.
Qed.

Lemma nth_repeat_lt {A : Type} (a d : A) (n i : nat) :
  (i < n)%nat -> nth i (repeat a n) d = a.
Proof.
  revert i; induction n as [|n IH]; intros [|i]; simpl; intros Hi;
    try lia; auto.
  apply IH; lia.
Qed.

Lemma wf_matrix_nth {T : Type} (A : matrix T) (i : nat) :
  wf_matrix A -> (i < shape0 A)%nat -> length (nth i (m_rows A) []) = m_cols A.
Proof.
  unfold wf_matrix, shape0. intros Hwf Hi.
  rewrite Forall_forall in Hwf. apply Hwf. now apply nth_In.
Qed.

Ltac shapes :=
  apply same_shape_eq; unfold shape0, shape1 in *; simpl;
  repeat rewrite ?zip_with_length, ?length_map, ?repeat_length;
  split; lia.

Lemma fill_pre_post_zeros (N : vec) :
  fill_pre_post N (length N) 0
    (mkmat (length N) (repeat (np_zeros (length N)) (length N)))
    (mkmat (length N) (repeat (np_zeros (length N)) (length N)))
  = Ok (mkmat (length N) (repeat N (length N)),
        mkmat (length N) (map (fun x => repeat x (length N)) N)).
Proof.
  pose proof (fill_pre_post_inv N (length N) 0 ltac:(lia)) as Hfill.
  simpl in Hfill. rewrite map_const_repeat in Hfill. exact Hfill.
Qed.

Lemma pairwise_connection_probability_ok (N : vec) (K : matrix R) :
  square (length N) K ->
  pairwise_connection_probability N K
  = Ok (mat_map (fun x => 1 - x)
         (mkmat (length N)
           (zip_with (zip_with np_power)
             (map (map (fun x => 1 - 1 / x))
                (zip_with (zip_with Rmult) (repeat N (length N))
                          (map (fun x => repeat x (length N)) N)))
             (zip_with (zip_with Rmult) (m_rows K)
                       (map (fun x => repeat x (length N)) N))))).
Proof.
  intros HK. unfold pairwise_connection_probability.
  rewrite (zeros_like2_square _ _ HK).
  rewrite fill_pre_post_zeros. cbn [rbind fst snd].
  destruct HK as (H0 & H1 & Hwf). unfold shape0, shape1 in *.
  unfold connection_probability, mat_mul.
  rewrite mat_zip_ok by shapes. cbn [rbind].
  rewrite mat_zip_ok by shapes. cbn [rbind].
  rewrite mat_zip_ok by shapes.
  reflexivity.
Qed.

(** The entry of the connection-probability matrix for the target [i] and
    the source [j]. *)
Lemma pairwise_connection_probability_entry (N : vec) (K C : matrix R)
    (i j : nat) :
  square (length N) K -> (i < length N)%nat -> (j < length N)%nat ->
  pairwise_connection_probability N K = Ok C ->
  mget C i j
  = 1 - np_power (1 - 1 / (nth j N 0 * nth i N 0)) (mget K i j * nth i N 0).
Proof.
  intros HK Hi Hj. rewrite (pairwise_connection_probability_ok _ _ HK).
  intros [= <-]. destruct HK as (H0 & H1 & Hwf). unfold shape0, shape1 in *.
  unfold mget, mat_map. cbn [m_rows].
  assert (HrowK : length (nth i (m_rows K) []) = length N).
  { rewrite wf_matrix_nth; auto. unfold shape0. lia. }
  rewrite (nth_map_lt _ _ _ [])
    by (rewrite zip_with_length, length_map, !zip_with_length,
          repeat_length, length_map; lia).
  rewrite (zip_with_nth _ _ _ _ [] [])
    by (rewrite ?length_map, !zip_with_length, ?repeat_length, ?length_map;
        lia).
  rewrite (nth_map_lt _ _ _ [])
    by (rewrite !zip_with_length, repeat_length, length_map; lia).
  rewrite !(zip_with_nth _ _ _ _ [] [])
    by (rewrite ?repeat_length, ?length_map; lia).
  rewrite (nth_repeat_lt _ _ _ _ Hi).
  rewrite (nth_map_lt (fun x => repeat x (length N)) N i 0 []) by lia.
  rewrite (nth_map_lt _ _ _ 0)
    by (rewrite zip_with_length, length_map, !zip_with_length,
          repeat_length, HrowK; lia).
  rewrite (zip_with_nth _ _ _ _ 0 0)
    by (rewrite ?length_map, !zip_with_length, ?repeat_length, ?HrowK; lia).
  rewrite (nth_map_lt _ _ _ 0)
    by (rewrite !zip_with_length, repeat_length; lia).
  rewrite !(zip_with_nth _ _ _ _ 0 0)
    by (rewrite ?repeat_length, ?HrowK; lia).
  rewrite (nth_repeat_lt _ _ _ _ Hj).
  reflexivity.
Qed.

(** ** The power function on the unit interval *)

Lemma exp_le (x y : R) : x <= y -> exp x <= exp y.
Proof.
  intros [H| ->]; [left; now apply exp_increasing|right; reflexivity].
Qed.

Lemma np_power_0_r (x : R) : np_power x 0 = 1.
Proof.
  unfold np_power. destruct (Req_dec_T x 0) as [_|_].
  - destruct (Req_dec_T 0 0); [reflexivity|contradiction].
  - unfold Rpower. rewrite Rmult_0_l. apply exp_0.
Qed.

Lemma np_power_pos (x y : R) : 0 < x -> np_power x y = exp (y * ln x).
Proof.
  intros Hx. unfold np_power. destruct (Req_dec_T x 0); [lra|reflexivity].
Qed.

Lemma np_power_nat (x : R) (n : nat) : 0 < x -> np_power x (INR n) = x ^ n.
Proof.
  intros Hx. unfold np_power. destruct (Req_dec_T x 0); [lra|].
  now apply Rpower_pow.
Qed.

Lemma ln_le_minus_1 (b : R) : 0 < b -> ln b <= b - 1.
Proof.
  intros Hb. pose proof (exp_ineq1_le (ln b)) as H.
  rewrite exp_ln in H by assumption. lra.
Qed.

(** For a base in [[0, 1)] the power does not increase with its exponent
    and stays in the unit interval. *)
Lemma np_power_unit_antitone (b y y' : R) :
  0 <= b < 1 -> 0 <= y <= y' -> np_power b y' <= np_power b y <= 1.
Proof.
  intros [Hb0 Hb1] [Hy Hyy']. unfold np_power.
  destruct (Req_dec_T b 0) as [Eb|Nb].
  - destruct (Req_dec_T y 0), (Req_dec_T y' 0); lra.
  - assert (Hb : 0 < b) by lra.
    assert (Hln : ln b < 0) by (rewrite <- ln_1; apply ln_increasing; lra).
    unfold Rpower. split.
    + apply exp_le. nra.
    + rewrite <- exp_0. apply exp_le. nra.
Qed.

Lemma np_power_unit_nonneg (b y : R) : 0 <= b -> 0 <= np_power b y.
Proof.
  intros Hb. unfold np_power.
  destruct (Req_dec_T b 0); [destruct (Req_dec_T y 0); lra|].
  left. apply exp_pos.
Qed.

(** [(1 - 1/a)^y <= exp(-y/a)] for [a >= 1] and [y >= 0]. *)
Lemma np_power_exp_bound (a y : R) :
  1 <= a -> 0 <= y -> np_power (1 - 1 / a) y <= exp (- (y / a)).
Proof.
  intros Ha Hy. unfold np_power.
  assert (Hinv : 0 < / a <= 1).
  { split; [apply Rinv_0_lt_compat; lra|].
    rewrite <- Rinv_1. apply Rinv_le_contravar; lra. }
  destruct (Req_dec_T (1 - 1 / a) 0) as [E|NE].
  - destruct (Req_dec_T y 0) as [->|Ny].
    + unfold Rdiv. rewrite Rmult_0_l, Ropp_0, exp_0. lra.
    + left. apply exp_pos.
  - assert (Hb : 0 < 1 - 1 / a) by (unfold Rdiv in *; lra).
    unfold Rpower. apply exp_le.
    pose proof (ln_le_minus_1 _ Hb) as Hln.
    unfold Rdiv in *. nra.
Qed.

(** The connection probability of a pair of populations of sizes [Ni]
    (target) and [Nj] (source) with in-degree [Kij], as the code computes
    it. *)
Definition C_entry (Ni Nj Kij : R) : R :=
  1 - np_power (1 - 1 / (Nj * Ni)) (Kij * Ni).

Lemma square_2x2 (a b c d : R) : square 2 (mkmat 2 [[a; b]; [c; d]]).
Proof.
  repeat split. unfold wf_matrix; simpl. repeat constructor.
Qed.

(** C8, as stated, fails: for sizes [N = [2; 3]] and in-degree
    [K[0,1] = 1] the code's [C[0,1]] is [1 - (5/6)^2], not the
    [1 - (1 - 1/(N_0 N_1))^(K[0,1] N_1) = 1 - (5/6)^3] of the claim. *)
Lemma connection_probability_exponent_counterexample :
  exists C,
    pairwise_connection_probability [2; 3] (mkmat 2 [[1; 1]; [1; 1]]) = Ok C
    /\ mget C 0 1 <> 1 - np_power (1 - 1 / (2 * 3)) (1 * 3).
Proof.
  pose proof (pairwise_connection_probability_ok [2; 3]
                (mkmat 2 [[1; 1]; [1; 1]]) (square_2x2 1 1 1 1)) as HC.
  eexists. split; [exact HC|].
  rewrite (pairwise_connection_probability_entry [2; 3] _ _ 0 1
             (square_2x2 1 1 1 1)) by (simpl; auto; exact HC).
  simpl nth. unfold mget. simpl nth.
  replace (1 * 2) with (INR 2) by (simpl; lra).
  replace (1 * 3) with (INR 3) by (simpl; lra).
  rewrite !np_power_nat by lra. lra.
Qed.

(** C8, amended: the exponent carries the size of the target population.
    Entry [(i, j)] of the connection probabilities is
    [1 - (1 - 1/(N_i N_j))^(K[i,j] N_i)]; it is [0] for [K[i,j] = 0]; for
    sizes of at least one it lies in the unit interval, does not decrease
    when the in-degree grows, and has reached [1 - exp(-N_i)] at
    [K[i,j] = N_i N_j]. *)
Theorem connection_probability_formula (N : vec) (K : matrix R) :
  square (length N) K ->
  (exists C,
      pairwise_connection_probability N K = Ok C
      /\ forall i j, (i < length N)%nat -> (j < length N)%nat ->
           mget C i j = C_entry (nth i N 0) (nth j N 0) (mget K i j))
  /\ (forall Ni Nj, C_entry Ni Nj 0 = 0)
  /\ (forall Ni Nj k k', 1 <= Ni -> 1 <= Nj -> 0 <= k <= k' ->
        0 <= C_entry Ni Nj k <= C_entry Ni Nj k' /\ C_entry Ni Nj k' <= 1)
  /\ (forall Ni Nj, 1 <= Ni -> 1 <= Nj ->
        1 - exp (- Ni) <= C_entry Ni Nj (Ni * Nj)).
Proof.
  intros HK. split; [|split; [|split]].
  - eexists. split; [apply (pairwise_connection_probability_ok _ _ HK)|].
    intros i j Hi Hj. unfold C_entry.
    apply pairwise_connection_probability_entry; auto.
    apply (pairwise_connection_probability_ok _ _ HK).
  - intros Ni Nj. unfold C_entry. rewrite Rmult_0_l, np_power_0_r. lra.
  - intros Ni Nj k k' HNi HNj Hk. unfold C_entry.
    assert (Ha : 1 <= Nj * Ni) by nra.
    assert (Hinv : 0 < / (Nj * Ni) <= 1).
    { split; [apply Rinv_0_lt_compat; lra|].
      rewrite <- Rinv_1. apply Rinv_le_contravar; lra. }
    assert (Hb : 0 <= 1 - 1 / (Nj * Ni) < 1) by (unfold Rdiv; lra).
    pose proof (np_power_unit_antitone _ (k * Ni) (k' * Ni) Hb
                  ltac:(nra)) as [H1 H2].
    pose proof (np_power_unit_nonneg (1 - 1 / (Nj * Ni)) (k' * Ni)
                  ltac:(lra)) as H3.
    lra.
  - intros Ni Nj HNi HNj. unfold C_entry.
    assert (Ha : 1 <= Nj * Ni) by nra.
    pose proof (np_power_exp_bound (Nj * Ni) (Ni * Nj * Ni) Ha ltac:(nra))
      as H.
    replace (Ni * Nj * Ni / (Nj * Ni)) with Ni in H by (field; nra).
    lra.
Qed.

Lemma connection_probability_formula_witness :
  square (length [2; 3]) (mkmat 2 [[1; 1]; [1; 1]])
  /\ exists C,
       pairwise_connection_probability [2; 3] (mkmat 2 [[1; 1]; [1; 1]])
       = Ok C.
Proof.
  split; [apply square_2x2|].
  destruct (connection_probability_formula [2; 3] (mkmat 2 [[1; 1]; [1; 1]])
              (square_2x2 1 1 1 1)) as [[C [HC _]] _].
  exists C. exact HC.
Defined.

(** ** The transfer function applied population-wise *)

Section Transfer.

Variable h : Helpers.
Variable net : Network.
Variable p : TheoryParams.

Let self := Theory_init net p.

(** The transfer function with the neuron parameters of the theory. *)
Definition nu0 (mu sigma : R) : R :=
  helpers_nu0_fb h mu sigma (tau_m p * 1e-3) (tau_syn_ex p * 1e-3)
    (t_ref p * 1e-3) (V_th p - E_L p) (V_reset p - E_L p).

(** A store whose connectivity has [n] populations and one external
    column, for a network without stationary override. *)
Definition plain_network (n : nat) (s : store h) : Prop :=
  in_strings (replace_cc net) ["hom_poisson_stat"; "het_poisson_stat"] = false
  /\ same_shape (K_matrix h s) (J_matrix h s) = true
  /\ shape0 (K_matrix h s) = n
  /\ shape1 (K_matrix h s) = S n
  /\ length (add_DC_drive net) = n
  /\ C_m net <> 0.

(** The input statistics of the rates [y], in closed form. *)
Definition mu_of (s : store h) (y : vec) : vec :=
  mean_input (tau_m p) (tau_m p / C_m net) (K_matrix h s) (J_matrix h s)
    (y ++ [rate_ext p]) (add_DC_drive net).

Definition sigma_of (s : store h) (y : vec) : vec :=
  std_input (tau_m p) (K_matrix h s) (J_matrix h s) (y ++ [rate_ext p]).

(** [Phi(nu)]: the transfer function at each population's statistics. *)
Definition Phi_of (s : store h) (y : vec) : vec :=
  zip_with nu0 (mu_of s y) (sigma_of s y).

Lemma mu_sigma_plain (n : nat) (s : store h) (y : vec)
    (vf : option (list bool)) :
  plain_network n s -> length y = n ->
  mu_sigma h self y true None vf s = (Ok (mu_of s y, sigma_of s y), s).
Proof.
  intros (Hcc & Hsh & H0 & H1 & Hdc & HCm) Hy.
  rewrite <- Hy in H0, H1, Hdc.
  apply (mu_sigma_no_override h self y vf s (tau_m p)); auto.
Qed.

Lemma mu_of_length (n : nat) (s : store h) (y : vec) :
  plain_network n s -> length (mu_of s y) = n.
Proof.
  intros (Hcc & Hsh & H0 & H1 & Hdc & HCm).
  apply same_shape_eq in Hsh. destruct Hsh as [HJ0 HJ1].
  unfold mu_of, mean_input, shape0 in *.
  rewrite !zip_with_length. lia.
Qed.

Lemma sigma_of_length (n : nat) (s : store h) (y : vec) :
  plain_network n s -> length (sigma_of s y) = n.
Proof.
  intros (Hcc & Hsh & H0 & H1 & Hdc & HCm).
  apply same_shape_eq in Hsh. destruct Hsh as [HJ0 HJ1].
  unfold sigma_of, std_input, shape0 in *.
  rewrite length_map, !zip_with_length. lia.
Qed.

Lemma Phi_of_length (n : nat) (s : store h) (y : vec) :
  plain_network n s -> length (Phi_of s y) = n.
Proof.
  intros H. unfold Phi_of.
  rewrite zip_with_length, (mu_of_length n), (sigma_of_length n) by auto.
  lia.
Qed.

Lemma mapM_nu0_fb (mu sigma : vec) :
  mapM (nu0_fb h self) (combine mu sigma) = Ok (zip_with nu0 mu sigma).
Proof.
  revert sigma; induction mu as [|m mu IH]; intros [|sg sigma]; simpl; auto.
  rewrite IH. reflexivity.
Qed.

Lemma Phi_plain (n : nat) (s : store h) (rates : vec)
    (parallel return_mu_sigma return_leak : bool) :
  plain_network n s -> length rates = n ->
  Phi h self rates parallel return_mu_sigma return_leak s
  = (Ok (if return_leak
         then zip_with Rminus (Phi_of s rates) rates
         else Phi_of s rates,
         if return_mu_sigma
         then Some (mu_of s rates, sigma_of s rates)
         else None), s).
Proof.
  intros Hs Hlen.
  unfold Phi, bind, lift, ret.
  rewrite (mu_sigma_plain n) by assumption.
  cbn [fst snd]. rewrite mapM_nu0_fb.
  destruct return_leak; [|reflexivity].
  assert (Hl : length (zip_with nu0 (mu_of s rates) (sigma_of s rates))
               = length rates)
    by (rewrite Hlen; now apply Phi_of_length).
  destruct parallel.
  - rewrite np_isub_same_length by exact Hl. reflexivity.
  - unfold np_sub. rewrite broadcast2_same_length by exact Hl. reflexivity.
Qed.

(** C10: whatever input statistics [mu_sigma] computes for the rates,
    [Phi] returns the transfer function's output at them minus the input
    rates unless [return_leak] is off, in which case it returns the output
    itself; with [return_mu_sigma] it returns in addition that [mu] and
    [sigma]. *)
Theorem Phi_returns_drift (s s' : store h) (rates mu sigma : vec)
    (parallel return_mu_sigma return_leak : bool) :
  mu_sigma h self rates true None None s = (Ok (mu, sigma), s') ->
  length mu = length rates -> length sigma = length rates ->
  Phi h self rates parallel return_mu_sigma return_leak s
  = (Ok (if return_leak
         then zip_with Rminus (zip_with nu0 mu sigma) rates
         else zip_with nu0 mu sigma,
         if return_mu_sigma then Some (mu, sigma) else None), s').
Proof.
  intros Hms Hmu Hsigma.
  unfold Phi, bind, lift, ret. rewrite Hms.
  cbn [fst snd]. rewrite mapM_nu0_fb.
  destruct return_leak; [|reflexivity].
  assert (Hl : length (zip_with nu0 mu sigma) = length rates)
    by (rewrite zip_with_length; lia).
  destruct parallel.
  - rewrite np_isub_same_length by exact Hl. reflexivity.
  - unfold np_sub. rewrite broadcast2_same_length by exact Hl. reflexivity.
Qed.

End Transfer.

(** ** The Runge-Kutta integration *)

Ltac lens :=
  unfold scale; repeat rewrite ?zip_with_length, ?length_map; lia.

(** The classical fourth-order Runge-Kutta step for [dy/dt = f(y)], and the
    trajectory of [steps] such steps from [y]. *)
Definition rk4_step (f : vec -> vec) (dt : R) (y : vec) : vec :=
  let k1 := f y in
  let k2 := f (zip_with Rplus y (scale (dt / 2) k1)) in
  let k3 := f (zip_with Rplus y (scale (dt / 2) k2)) in
  let k4 := f (zip_with Rplus y (scale dt k3)) in
  zip_with Rplus y
    (scale (dt / 6)
       (zip_with Rplus
          (zip_with Rplus (zip_with Rplus k1 (scale 2 k2)) (scale 2 k3)) k4)).

Fixpoint rk4_trajectory (f : vec -> vec) (dt : R) (y : vec) (steps : nat)
  : list vec :=
  match steps with
  | O => [y]
  | S k => y :: rk4_trajectory f dt (rk4_step f dt y) k
  end.

Section RungeKutta.

Variable h : Helpers.
Variable net : Network.
Variable p : TheoryParams.

Let self := Theory_init net p.

(** The right-hand side of the rate equation
    [d nu / dt = (Phi(nu) - nu) / tau_m]. *)
Definition ode_rhs (s : store h) (y : vec) : vec :=
  map (fun x => x / tau_m p) (zip_with Rminus (Phi_of h net p s y) y).

Lemma scale_half (dt : R) (k : vec) :
  tau_m p <> 0 ->
  scale (dt * 1e-3 / (tau_m p * 1e-3) / 2) k
  = scale (dt / 2) (map (fun x => x / tau_m p) k).
Proof.
  intros Htm. unfold scale. rewrite map_map. apply map_ext.
  intros x. field. lra.
Qed.

Lemma scale_full (dt : R) (k : vec) :
  tau_m p <> 0 ->
  scale (dt * 1e-3 / (tau_m p * 1e-3)) k
  = scale dt (map (fun x => x / tau_m p) k).
Proof.
  intros Htm. unfold scale. rewrite map_map. apply map_ext.
  intros x. field. lra.
Qed.

Lemma rk4_increment (dt : R) (y k1 k2 k3 k4 : vec) :
  tau_m p <> 0 ->
  zip_with Rplus y
    (map (fun x => x / (tau_m p * 1e-3))
       (scale (dt * 1e-3 / 6)
          (zip_with Rplus
             (zip_with Rplus (zip_with Rplus k1 (scale 2 k2)) (scale 2 k3))
             k4)))
  = zip_with Rplus y
      (scale (dt / 6)
         (zip_with Rplus
            (zip_with Rplus
               (zip_with Rplus (map (fun x => x / tau_m p) k1)
                  (scale 2 (map (fun x => x / tau_m p) k2)))
               (scale 2 (map (fun x => x / tau_m p) k3)))
            (map (fun x => x / tau_m p) k4))).
Proof.
  intros Htm. revert k1 k2 k3 k4.
  induction y as [|a y IH]; intros [|b1 k1] [|b2 k2] [|b3 k3] [|b4 k4];
    simpl; auto.
  f_equal; [field; lra|apply IH].
Qed.

Lemma drift_length (n : nat) (s : store h) (y : vec) :
  plain_network h net n s -> length y = n ->
  length (zip_with Rminus (Phi_of h net p s y) y) = n.
Proof.
  intros Hs Hy. rewrite zip_with_length, (Phi_of_length h net p n) by auto.
  lia.
Qed.

Lemma ode_rhs_length (n : nat) (s : store h) (y : vec) :
  plain_network h net n s -> length y = n -> length (ode_rhs s y) = n.
Proof.
  intros Hs Hy. unfold ode_rhs. rewrite length_map. now apply drift_length.
Qed.

Lemma axpy_length (n : nat) (c : R) (y k : vec) :
  length y = n -> length k = n ->
  length (zip_with Rplus y (scale c k)) = n.
Proof.
  intros Hy Hk. unfold scale. rewrite zip_with_length, length_map. lia.
Qed.

(** One pass of the integration loop is one Runge-Kutta step. *)
Lemma rk_step_rk4 (n : nat) (s : store h) (parallel : bool) (dt : R)
    (y : vec) :
  plain_network h net n s -> length y = n -> tau_m p <> 0 ->
  rk_step h self parallel dt (tau_m p * 1e-3) y s
  = (Ok (rk4_step (ode_rhs s) dt y), s).
Proof.
  intros Hs Hy Htm.
  assert (Htau : tau_m p * 1e-3 <> 0) by lra.
  unfold rk_step, bind, lift, np_add, rk4_step, ode_rhs.
  rewrite (Phi_plain h net p n) by assumption. cbn [fst].
  rewrite (py_div_ok _ _ Htau).
  pose proof (drift_length n s y Hs Hy) as Hd1.
  set (d1 := zip_with Rminus (Phi_of h net p s y) y) in *.
  rewrite broadcast2_same_length by lens.
  rewrite (scale_half _ _ Htm).
  set (a2 := zip_with Rplus y (scale (dt / 2) (map _ d1))).
  assert (Ha2 : length a2 = n) by (subst a2; lens).
  rewrite (Phi_plain h net p n) by assumption. cbn [fst].
  pose proof (drift_length n s a2 Hs Ha2) as Hd2.
  set (d2 := zip_with Rminus (Phi_of h net p s a2) a2) in *.
  rewrite broadcast2_same_length by lens.
  rewrite (scale_half _ _ Htm).
  set (a3 := zip_with Rplus y (scale (dt / 2) (map _ d2))).
  assert (Ha3 : length a3 = n) by (subst a3; lens).
  rewrite (Phi_plain h net p n) by assumption. cbn [fst].
  pose proof (drift_length n s a3 Hs Ha3) as Hd3.
  set (d3 := zip_with Rminus (Phi_of h net p s a3) a3) in *.
  rewrite broadcast2_same_length by lens.
  rewrite (scale_full _ _ Htm).
  set (a4 := zip_with Rplus y (scale dt (map _ d3))).
  assert (Ha4 : length a4 = n) by (subst a4; lens).
  rewrite (Phi_plain h net p n) by assumption. cbn [fst].
  pose proof (drift_length n s a4 Hs Ha4) as Hd4.
  set (d4 := zip_with Rminus (Phi_of h net p s a4) a4) in *.
  rewrite broadcast2_same_length by lens.
  rewrite broadcast2_same_length by lens.
  rewrite broadcast2_same_length by lens.
  rewrite broadcast2_same_length by lens.
  rewrite (rk4_increment _ _ _ _ _ _ Htm).
  reflexivity.
Qed.

Lemma rk4_step_length (n : nat) (s : store h) (dt : R) (y : vec) :
  plain_network h net n s -> length y = n ->
  length (rk4_step (ode_rhs s) dt y) = n.
Proof.
  intros Hs Hy. unfold rk4_step. cbv zeta.
  pose proof (ode_rhs_length n s y Hs Hy) as H1.
  set (k1 := ode_rhs s y) in *.
  assert (Ha2 : length (zip_with Rplus y (scale (dt / 2) k1)) = n) by lens.
  pose proof (ode_rhs_length n s _ Hs Ha2) as H2.
  set (k2 := ode_rhs s (zip_with Rplus y (scale (dt / 2) k1))) in *.
  assert (Ha3 : length (zip_with Rplus y (scale (dt / 2) k2)) = n) by lens.
  pose proof (ode_rhs_length n s _ Hs Ha3) as H3.
  set (k3 := ode_rhs s (zip_with Rplus y (scale (dt / 2) k2))) in *.
  assert (Ha4 : length (zip_with Rplus y (scale dt k3)) = n) by lens.
  pose proof (ode_rhs_length n s _ Hs Ha4) as H4.
  set (k4 := ode_rhs s (zip_with Rplus y (scale dt k3))) in *.
  lens.
Qed.

Lemma set_nth_middle {T : Type} (l1 l2 : list T) (a z x : T) :
  set_nth (l1 ++ a :: z :: l2) (S (length l1)) x = (l1 ++ [a]) ++ x :: l2.
Proof.
  induction l1 as [|b l1 IH]; simpl; [reflexivity|].
  f_equal. exact IH.
Qed.

(** The integration loop fills the rows of [y] after row [i] with the
    Runge-Kutta trajectory that starts at row [i]. *)
Lemma integration_loop_trajectory (n : nat) (s : store h) (parallel : bool)
    (dt : R) (k : nat) (done : list vec) (cur : vec) :
  plain_network h net n s -> length cur = n -> tau_m p <> 0 ->
  integration_loop h self parallel dt (tau_m p * 1e-3) k (length done)
    (mkmat n (done ++ cur :: repeat (np_zeros n) k)) s
  = (Ok (mkmat n (done ++ rk4_trajectory (ode_rhs s) dt cur k)), s).
Proof.
  intros Hs Hcur Htm. revert done cur Hcur.
  induction k as [|k IH]; intros done cur Hcur; [reflexivity|].
  cbn [integration_loop rk4_trajectory m_rows]. unfold bind.
  rewrite nth_middle, (rk_step_rk4 n) by assumption.
  unfold lift.
  rewrite set_row_ok
    by (unfold shape0; cbn [m_rows m_cols];
        rewrite ?length_app; simpl; rewrite ?(rk4_step_length n); auto; lia).
  cbn [m_rows m_cols repeat]. rewrite set_nth_middle.
  replace (S (length done)) with (length (done ++ [cur]))
    by (rewrite length_app; simpl; lia).
  rewrite IH by (now apply rk4_step_length).
  rewrite <- app_assoc. reflexivity.
Qed.

Lemma arange_points_length (T dt : R) :
  length (arange_points T dt) = arange_len T dt.
Proof.
  unfold arange_points. now rewrite length_map, length_seq.
Qed.

Lemma np_arange_ok (T dt : R) :
  dt <> 0 -> np_arange T dt = Ok (arange_points T dt).
Proof.
  intros H. unfold np_arange. destruct (Req_dec_T dt 0); [contradiction|].
  reflexivity.
Qed.

Lemma arange_len_zero_step (T : R) : arange_len T 0 = 0%nat.
Proof.
  unfold arange_len, Rdiv. rewrite Rinv_0, Rmult_0_r.
  rewrite (Zceil_eq 0); [reflexivity|]. lra.
Qed.

(** The vector the integration starts from: the configured array, or
    zeros when none is configured. *)
Definition initial_vector (n : nat) : option vec :=
  match initial_rates_p p with
  | IR_None => Some (np_zeros n)
  | IR_array v => Some v
  | IR_str _ => None
  end.

(** What one pass of [for nsim in range(num_iter)] appends to [rates]. *)
Definition output (full_output : bool) (y : matrix R) : matrix R :=
  if full_output then transpose y
  else mkmat 2 (map (fun r => [nth 0 r 0; last r 0]) (m_rows (transpose y))).

(** The store after [self.t] has been assigned. *)
Definition with_t (s : store h) : store h :=
  mkstore h (K_matrix h s) (J_matrix h s) (np_random h s)
    (dict_set (attrs h s) "t" (PVec (arange_points (T p) (dt p)))).

Lemma plain_network_with_t (n : nat) (s : store h) :
  plain_network h net n s -> plain_network h net n (with_t s).
Proof. intros Hs. exact Hs. Qed.

Lemma rk4_trajectory_length (f : vec -> vec) (dt : R) (y : vec) (k : nat) :
  length (rk4_trajectory f dt y k) = S k.
Proof.
  revert y; induction k as [|k IH]; intros y; simpl; [reflexivity|].
  now rewrite IH.
Qed.

(** One pass of the outer loop, for a generator that yields [y0]. *)
Lemma simulations_step (n : nat) (s s1 : store h) (full_output parallel : bool)
    (k : nat) (gen gen' : generator) (y0 : vec) (acc : list (matrix R)) :
  next h gen s = (Ok (y0, gen'), s1) ->
  plain_network h net n s1 -> length y0 = n -> tau_m p <> 0 ->
  (0 < arange_len (T p) (dt p))%nat ->
  simulations h self full_output parallel n (tau_m p * 1e-3) (S k) gen acc s
  = simulations h self full_output parallel n (tau_m p * 1e-3) k gen'
      (acc ++ [output full_output
                 (mkmat n (rk4_trajectory (ode_rhs s1) (dt p) y0
                             (arange_len (T p) (dt p) - 1)))])
      (with_t s1).
Proof.
  intros Hgen Hs Hy0 Htm Hlen.
  assert (Hdt : dt p <> 0)
    by (intros E; rewrite E, arange_len_zero_step in Hlen; lia).
  cbn [simulations]. unfold bind at 1. rewrite Hgen.
  unfold bind at 1. unfold lift at 1.
  cbn [fst snd params self Theory_init].
  rewrite (np_arange_ok _ _ Hdt).
  unfold bind at 1. unfold setattr at 1. fold (with_t s1).
  rewrite arange_points_length.
  destruct (arange_len (T p) (dt p)) as [|m] eqn:Em; [lia|].
  unfold bind at 1. unfold lift at 1.
  rewrite set_row_ok by (unfold shape0; simpl; auto; lia).
  cbn [m_rows m_cols repeat set_nth Nat.pred].
  pose proof (integration_loop_trajectory n (with_t s1) parallel (dt p) m []
                y0 (plain_network_with_t n s1 Hs) Hy0 Htm) as Hloop.
  cbn [app length] in Hloop. fold self in Hloop.
  unfold bind at 1. rewrite Hloop.
  replace (S m - 1)%nat with m by lia.
  unfold output. destruct full_output.
  - unfold bind at 1, ret at 1. reflexivity.
  - unfold bind at 1, lift at 1, first_last_cols.
    cbn [transpose m_cols m_rows]. unfold shape0. cbn [m_rows].
    rewrite rk4_trajectory_length. reflexivity.
Qed.

Lemma next_repeat (y0 : vec) (s : store h) :
  next h (Gen_repeat y0 1) s = (Ok (y0, Gen_repeat y0 0), s).
Proof. reflexivity. Qed.

(** The solver from a configured initial vector. *)
Lemma integrate_siegert_python_plain (n : nat) (s : store h) (y0 : vec)
    (full_output parallel : bool) :
  plain_network h net n s ->
  initial_vector n = Some y0 ->
  length y0 = n ->
  tau_m p <> 0 ->
  (0 < arange_len (T p) (dt p))%nat ->
  integrate_siegert_python h self full_output parallel s
  = (Ok (One (structure_vec net)
           (output full_output
              (mkmat n (rk4_trajectory (ode_rhs s) (dt p) y0
                          (arange_len (T p) (dt p) - 1))))),
     with_t s).
Proof.
  intros Hs Hinit Hy0 Htm Hlen.
  assert (Hdim : shape0 (K_matrix h s) = n) by (apply Hs).
  unfold integrate_siegert_python, bind, get, lift.
  cbn [NP self Theory_init dict_get String.eqb Ascii.eqb Bool.eqb params
       network].
  rewrite Hdim.
  unfold initial_vector in Hinit.
  destruct (initial_rates_p p) as [|mode|v]; try discriminate;
    injection Hinit as <-;
    rewrite (simulations_step n s s _ _ 0 _ _ _ [] (next_repeat _ s))
      by assumption;
    reflexivity.
Qed.

(** C7: from the configured initial vector, the Python solver returns the
    trajectory of the fourth-order Runge-Kutta scheme for
    [d nu / dt = (Phi(nu) - nu) / tau_m] with step [dt], one row per point
    of [np.arange(0, T, dt)], transposed to populations by time. *)
Theorem integrate_siegert_python_runge_kutta (n : nat) (s : store h)
    (y0 : vec) (parallel : bool) :
  plain_network h net n s ->
  initial_vector n = Some y0 ->
  length y0 = n ->
  tau_m p <> 0 ->
  (0 < arange_len (T p) (dt p))%nat ->
  fst (integrate_siegert_python h self true parallel s)
  = Ok (One (structure_vec net)
          (transpose
             (mkmat n (rk4_trajectory (ode_rhs s) (dt p) y0
                         (arange_len (T p) (dt p) - 1))))).
Proof.
  intros Hs Hinit Hy0 Htm Hlen.
  rewrite (integrate_siegert_python_plain n s y0 true parallel) by assumption.
  reflexivity.
Qed.

End RungeKutta.

(** ** Random initial rates *)

Section InitialRates.

Variable h : Helpers.

(** The first [k] vectors a generator yields when nothing else uses the
    store between two calls of [next]. *)
Fixpoint yields (k : nat) (gen : generator) (s : store h) : list vec :=
  match k with
  | O => []
  | S k' =>
      match next h gen s with
      | (Ok (v, gen'), s') => v :: yields k' gen' s'
      | (Raise _, _) => []
      end
  end.

Lemma rand_length (dim : nat) (g : rng_state h) :
  length (fst (rand h dim g)) = dim.
Proof.
  revert g; induction dim as [|d IH]; intros g; simpl; [reflexivity|].
  destruct (random_sample h g) as [x g1].
  specialize (IH g1). destruct (rand h d g1) as [xs g2]. simpl in *.
  now rewrite IH.
Qed.

Lemma rand_range (dim : nat) (g : rng_state h) :
  Forall (fun x => 0 <= x < 1) (fst (rand h dim g)).
Proof.
  revert g; induction dim as [|d IH]; intros g; simpl; [constructor|].
  pose proof (random_sample_range h g) as Hx.
  destruct (random_sample h g) as [x g1].
  specialize (IH g1). destruct (rand h d g1) as [xs g2]. simpl in *.
  constructor; assumption.
Qed.

Lemma scale_range (rate_max : R) (v : vec) :
  0 < rate_max -> Forall (fun x => 0 <= x < 1) v ->
  Forall (fun x => 0 <= x < rate_max) (scale rate_max v).
Proof.
  intros Hr Hv. unfold scale. rewrite Forall_map.
  eapply Forall_impl; [|exact Hv]. simpl. intros x Hx. nra.
Qed.

(** What a vector of initial rates looks like. *)
Definition rates_in_range (dim : nat) (rate_max : R) (v : vec) : Prop :=
  length v = dim /\ Forall (fun x => 0 <= x < rate_max) v.

Section Started.

Variables (num_iter dim : nat) (rate_max : R) (rng_seed : Z).

Let running (n : nat) : generator :=
  Gen_initial_rates true n num_iter dim rate_max rng_seed.

Lemma yields_running_rng (k n : nat) (s1 s2 : store h) :
  np_random h s1 = np_random h s2 ->
  yields k (running n) s1 = yields k (running n) s2.
Proof.
  revert n s1 s2; induction k as [|k IH]; intros n s1 s2 Hg; [reflexivity|].
  cbn [yields next running]. unfold bind, ret, get, raise, set_np_random.
  destruct (Nat.ltb (S n) num_iter); [|reflexivity].
  rewrite Hg. destruct (rand h dim (np_random h s2)) as [v g].
  f_equal. apply IH. reflexivity.
Qed.

Lemma yields_running_length (k n : nat) (s : store h) :
  length (yields k (running n) s) = Nat.min k (num_iter - S n).
Proof.
  revert n s; induction k as [|k IH]; intros n s; [reflexivity|].
  cbn [yields next running]. unfold bind, ret, get, raise, set_np_random.
  destruct (Nat.ltb (S n) num_iter) eqn:E.
  - apply Nat.ltb_lt in E.
    destruct (rand h dim (np_random h s)) as [v g].
    cbn [length]. fold (running (S n)). rewrite IH. lia.
  - apply Nat.ltb_ge in E. cbn [length]. lia.
Qed.

Lemma yields_running_range (k n : nat) (s : store h) :
  0 < rate_max ->
  Forall (rates_in_range dim rate_max) (yields k (running n) s).
Proof.
  intros Hr. revert n s; induction k as [|k IH]; intros n s; [constructor|].
  cbn [yields next running]. unfold bind, ret, get, raise, set_np_random.
  destruct (Nat.ltb (S n) num_iter); [|constructor].
  pose proof (rand_length dim (np_random h s)) as Hl.
  pose proof (rand_range dim (np_random h s)) as Hrg.
  destruct (rand h dim (np_random h s)) as [v g]. simpl in Hl, Hrg.
  constructor; [|apply IH].
  split; [unfold scale; now rewrite length_map|now apply scale_range].
Qed.

End Started.

Definition valid_seed (sd : Z) : Prop := (0 <= sd < 2 ^ 32)%Z.

Lemma valid_seed_test (sd : Z) :
  valid_seed sd -> (Z.leb 0 sd && Z.ltb sd (2 ^ 32))%bool = true.
Proof.
  intros [H0 H1]. apply andb_true_iff. split.
  - now apply Z.leb_le.
  - now apply Z.ltb_lt.
Qed.

(** The first call of [next] seeds numpy's generator: what it yields and
    the random state it leaves do not depend on the store it found. *)
Lemma next_fresh (self : Theory) (num_iter dim : nat) (mode : string)
    (rate_max : R) (rng_seed : Z) (s : store h) :
  valid_seed rng_seed -> (0 < num_iter)%nat ->
  next h (initial_rates self num_iter dim mode rate_max rng_seed) s
  = (Ok (scale rate_max (fst (rand h dim (np_random_seed h rng_seed))),
         Gen_initial_rates true 0 num_iter dim rate_max rng_seed),
     mkstore h (K_matrix h s) (J_matrix h s)
       (snd (rand h dim (np_random_seed h rng_seed))) (attrs h s)).
Proof.
  intros Hsd Hn. unfold initial_rates, next, bind, seed.
  rewrite (valid_seed_test _ Hsd).
  unfold set_np_random, get, ret. cbn [fst snd].
  apply Nat.ltb_lt in Hn. rewrite Hn. cbn [np_random K_matrix J_matrix attrs].
  destruct (rand h dim (np_random_seed h rng_seed)) as [v g]. reflexivity.
Qed.

Lemma next_fresh_invalid (self : Theory) (num_iter dim : nat) (mode : string)
    (rate_max : R) (rng_seed : Z) (s : store h) :
  (Z.leb 0 rng_seed && Z.ltb rng_seed (2 ^ 32))%bool = false ->
  next h (initial_rates self num_iter dim mode rate_max rng_seed) s
  = (Raise ValueError, s).
Proof.
  intros Hsd. unfold initial_rates, next, bind, seed. rewrite Hsd.
  reflexivity.
Qed.

Lemma next_fresh_empty (self : Theory) (dim : nat) (mode : string)
    (rate_max : R) (rng_seed : Z) (s : store h) :
  fst (next h (initial_rates self 0 dim mode rate_max rng_seed) s)
  = Raise (if (Z.leb 0 rng_seed && Z.ltb rng_seed (2 ^ 32))%bool
           then StopIteration else ValueError).
Proof.
  unfold initial_rates, next, bind, seed.
  destruct (Z.leb 0 rng_seed && Z.ltb rng_seed (2 ^ 32))%bool; reflexivity.
Qed.

Lemma yields_fresh_independent (self : Theory) (num_iter dim : nat)
    (mode : string) (rate_max : R) (rng_seed : Z) (k : nat)
    (s1 s2 : store h) :
  yields k (initial_rates self num_iter dim mode rate_max rng_seed) s1
  = yields k (initial_rates self num_iter dim mode rate_max rng_seed) s2.
Proof.
  destruct k as [|k]; [reflexivity|]. cbn [yields].
  destruct (Z.leb 0 rng_seed && Z.ltb rng_seed (2 ^ 32))%bool eqn:Esd.
  - destruct num_iter as [|m].
    + pose proof (next_fresh_empty self dim mode rate_max rng_seed s1) as H1.
      pose proof (next_fresh_empty self dim mode rate_max rng_seed s2) as H2.
      destruct (next h _ s1) as [[r1|e1] t1], (next h _ s2) as [[r2|e2] t2];
        simpl in H1, H2; try discriminate; reflexivity.
    + apply andb_true_iff in Esd. destruct Esd as [E0 E1].
      apply Z.leb_le in E0. apply Z.ltb_lt in E1.
      rewrite !next_fresh by (unfold valid_seed; lia).
      f_equal. apply yields_running_rng. reflexivity.
  - rewrite !next_fresh_invalid by assumption. reflexivity.
Qed.

Lemma yields_fresh_length (self : Theory) (num_iter dim : nat)
    (mode : string) (rate_max : R) (rng_seed : Z) (k : nat) (s : store h) :
  valid_seed rng_seed ->
  length (yields k (initial_rates self num_iter dim mode rate_max rng_seed) s)
  = Nat.min k num_iter.
Proof.
  intros Hsd. destruct k as [|k]; [reflexivity|]. cbn [yields].
  destruct num_iter as [|m].
  - pose proof (next_fresh_empty self dim mode rate_max rng_seed s) as H1.
    destruct (next h _ s) as [[r1|e1] t1]; simpl in H1; try discriminate.
    reflexivity.
  - rewrite next_fresh by (auto; lia). cbn [length].
    rewrite yields_running_length. lia.
Qed.

Lemma yields_fresh_range (self : Theory) (num_iter dim : nat)
    (mode : string) (rate_max : R) (rng_seed : Z) (k : nat) (s : store h) :
  0 < rate_max ->
  Forall (rates_in_range dim rate_max)
    (yields k (initial_rates self num_iter dim mode rate_max rng_seed) s).
Proof.
  intros Hr. destruct k as [|k]; [constructor|]. cbn [yields].
  destruct (Z.leb 0 rng_seed && Z.ltb rng_seed (2 ^ 32))%bool eqn:Esd.
  - destruct num_iter as [|m].
    + pose proof (next_fresh_empty self dim mode rate_max rng_seed s) as H1.
      destruct (next h _ s) as [[r1|e1] t1]; simpl in H1; try discriminate.
      constructor.
    + apply andb_true_iff in Esd. destruct Esd as [E0 E1].
      apply Z.leb_le in E0. apply Z.ltb_lt in E1.
      rewrite next_fresh by (unfold valid_seed; lia).
      constructor; [|now apply yields_running_range].
      split.
      * unfold scale. rewrite length_map. apply rand_length.
      * apply scale_range; [assumption|apply rand_range].
  - rewrite next_fresh_invalid by assumption. constructor.
Qed.

(** The solver's result on the random path does not depend on the random
    state it starts with. *)
Lemma integrate_siegert_python_seeded (self : Theory)
    (full_output parallel : bool) (K J : matrix R) (g1 g2 : rng_state h)
    (a : dict pyval) :
  initial_rates_p (params self) = IR_str "random_uniform" ->
  fst (integrate_siegert_python h self full_output parallel
         (mkstore h K J g1 a))
  = fst (integrate_siegert_python h self full_output parallel
           (mkstore h K J g2 a)).
Proof.
  intros Hmode. unfold integrate_siegert_python, bind, get, lift.
  cbn [K_matrix].
  destruct (dict_get (NP self) "tau_m") as [tm|e]; [|reflexivity].
  rewrite Hmode. cbn [String.eqb Ascii.eqb Bool.eqb].
  destruct (initial_rates_iter (params self)) as [|m]; [reflexivity|].
  cbn [simulations]. unfold bind.
  rewrite !next_fresh by (unfold valid_seed; lia).
  reflexivity.
Qed.

End InitialRates.

(** C9: the vectors that the generator of [initial_rates] yields are the
    same whatever store, and so whatever random state, the generator
    finds; there are [num_iter] of them, each of length [dim] with entries
    in [[0, rate_max)]; and the trajectories that the solver computes from
    them do not depend on the random state either. *)
Theorem initial_rates_reproducible (h : Helpers) (self : Theory)
    (num_iter dim : nat) (mode : string) (rate_max : R) (rng_seed : Z) :
  valid_seed rng_seed -> 0 < rate_max ->
  (forall k s1 s2,
      yields h k (initial_rates self num_iter dim mode rate_max rng_seed) s1
      = yields h k (initial_rates self num_iter dim mode rate_max rng_seed) s2)
  /\ (forall s,
        length (yields h num_iter
                  (initial_rates self num_iter dim mode rate_max rng_seed) s)
        = num_iter
        /\ Forall (rates_in_range dim rate_max)
             (yields h num_iter
                (initial_rates self num_iter dim mode rate_max rng_seed) s))
  /\ (forall full_output parallel K J g1 g2 a,
        initial_rates_p (params self) = IR_str "random_uniform" ->
        fst (integrate_siegert_python h self full_output parallel
               (mkstore h K J g1 a))
        = fst (integrate_siegert_python h self full_output parallel
                 (mkstore h K J g2 a))).
Proof.
  intros Hsd Hr. split; [|split].
  - intros k s1 s2. apply yields_fresh_independent.
  - intros s. split.
    + rewrite yields_fresh_length by assumption. lia.
    + now apply yields_fresh_range.
  - intros. now apply integrate_siegert_python_seeded.
Qed.

Lemma initial_rates_reproducible_witness :
  valid_seed 123 /\ 0 < 1000
  /\ length (yields ex_helpers 2
               (initial_rates (ex_theory None) 2 2 "random_uniform" 1000 123)
               ex_store) = 2%nat.
Proof.
  assert (Hsd : valid_seed 123) by (unfold valid_seed; simpl; lia).
  assert (Hr : 0 < 1000) by lra.
  split; [exact Hsd|split; [exact Hr|]].
  apply (initial_rates_reproducible ex_helpers (ex_theory None) 2 2
           "random_uniform" 1000 123 Hsd Hr).
Defined.

(** ** The concrete network under the theorems above *)

Lemma ex_plain_network (cc : option string) :
  in_strings cc ["hom_poisson_stat"; "het_poisson_stat"] = false ->
  plain_network ex_helpers (ex_network cc) 2 ex_store.
Proof.
  intros Hcc. unfold plain_network. simpl.
  repeat split; auto; lra.
Qed.

Lemma arange_len_3_1 : arange_len 3 1 = 3%nat.
Proof.
  unfold arange_len. rewrite (Zceil_eq 3); [reflexivity|]. lra.
Qed.

Definition ex_mu : vec :=
  mu_of ex_helpers (ex_network None) ex_params ex_store [1; 2].

Definition ex_sigma : vec := sigma_of ex_helpers ex_params ex_store [1; 2].

Lemma Phi_returns_drift_witness :
  mu_sigma ex_helpers (ex_theory None) [1; 2] true None None ex_store
  = (Ok (ex_mu, ex_sigma), ex_store)
  /\ length ex_mu = 2%nat /\ length ex_sigma = 2%nat
  /\ Phi ex_helpers (ex_theory None) [1; 2] false false true ex_store
     = (Ok (zip_with Rminus
              (zip_with (nu0 ex_helpers ex_params) ex_mu ex_sigma) [1; 2],
            None), ex_store).
Proof.
  assert (Hs : plain_network ex_helpers (ex_network None) 2 ex_store)
    by (apply ex_plain_network; reflexivity).
  assert (Hms : mu_sigma ex_helpers (ex_theory None) [1; 2] true None None
                  ex_store = (Ok (ex_mu, ex_sigma), ex_store))
    by (apply (mu_sigma_plain ex_helpers (ex_network None) ex_params 2);
        [exact Hs|reflexivity]).
  split; [exact Hms|split; [reflexivity|split; [reflexivity|]]].
  apply (Phi_returns_drift ex_helpers (ex_network None) ex_params ex_store
           ex_store [1; 2] ex_mu ex_sigma false false true Hms);
    reflexivity.
Defined.

Lemma integrate_siegert_python_runge_kutta_witness :
  plain_network ex_helpers (ex_network None) 2 ex_store
  /\ initial_vector ex_params 2 = Some [0; 0]
  /\ tau_m ex_params <> 0
  /\ (0 < arange_len (T ex_params) (dt ex_params))%nat
  /\ fst (integrate_siegert_python ex_helpers (ex_theory None) true false
            ex_store)
     = Ok (One ["V1-23E"; "V2-23E"]
             (transpose
                (mkmat 2
                   (rk4_trajectory
                      (ode_rhs ex_helpers (ex_network None) ex_params
                         ex_store) 1 [0; 0] 2)))).
Proof.
  assert (Hs : plain_network ex_helpers (ex_network None) 2 ex_store)
    by (apply ex_plain_network; reflexivity).
  assert (Htm : tau_m ex_params <> 0) by (simpl; lra).
  assert (Hlen : (0 < arange_len (T ex_params) (dt ex_params))%nat)
    by (simpl; rewrite arange_len_3_1; lia).
  split; [exact Hs|split; [reflexivity|split; [exact Htm|split;
    [exact Hlen|]]]].
  pose proof (integrate_siegert_python_runge_kutta ex_helpers
                (ex_network None) ex_params 2 ex_store [0; 0] false Hs
                eq_refl eq_refl Htm Hlen) as H.
  simpl T in H. simpl dt in H. rewrite arange_len_3_1 in H. exact H.
Defined.

(** * Further properties of the class *)

(** ** What the statistics mapper leaves alone *)

Ltac split_goal :=
  repeat match goal with
         | |- context [match ?x with _ => _ end] => destruct x eqn:?
         end.

Section Frame.

Variable h : Helpers.

(** Stores that differ at most in the attributes set on [self]. *)
Definition same_arrays (s s' : store h) : Prop :=
  K_matrix h s' = K_matrix h s /\ J_matrix h s' = J_matrix h s
  /\ np_random h s' = np_random h s.

(** Stores whose attributes agree except for [cc_input_rates]. *)
Definition same_attrs_but_cc (s s' : store h) : Prop :=
  forall k, k <> "cc_input_rates" ->
            dict_get (attrs h s') k = dict_get (attrs h s) k.

Lemma dict_get_set_other {V : Type} (d : dict V) (k k' : string) (v : V) :
  k' <> k -> dict_get (dict_set d k v) k' = dict_get d k'.
Proof.
  intros Hk. unfold dict_set. simpl.
  destruct (String.eqb k' k) eqn:E; [apply String.eqb_eq in E; contradiction|].
  induction d as [|[k0 v0] d IH]; simpl; [reflexivity|].
  destruct (String.eqb k k0) eqn:E0; simpl.
  - apply String.eqb_eq in E0. subst k0. rewrite E. exact IH.
  - destruct (String.eqb k' k0); [reflexivity|exact IH].
Qed.

Lemma dict_get_set_same {V : Type} (d : dict V) (k : string) (v : V) :
  dict_get (dict_set d k v) k = Ok v.
Proof.
  unfold dict_set. simpl. now rewrite String.eqb_refl.
Qed.

(** Computations that leave the store as they found it. *)
Definition frame {A : Type} (c : M h A) : Prop := forall s, snd (c s) = s.

Lemma frame_ret {A : Type} (a : A) : frame (ret h a).
Proof. intros s; reflexivity. Qed.

Lemma frame_raise {A : Type} (e : exn) : frame (@raise h A e).
Proof. intros s; reflexivity. Qed.

Lemma frame_lift {A : Type} (r : result A) : frame (lift h r).
Proof. intros s; reflexivity. Qed.

Lemma frame_get : frame (get h).
Proof. intros s; reflexivity. Qed.

Lemma frame_getattr (name : string) : frame (getattr h name).
Proof.
  intros s. unfold getattr. destruct (dict_get (attrs h s) name); reflexivity.
Qed.

Lemma frame_bind {A B : Type} (c : M h A) (k : A -> M h B) :
  frame c -> (forall a, frame (k a)) -> frame (bind h c k).
Proof.
  intros Hc Hk s. unfold bind. specialize (Hc s).
  destruct (c s) as [[a|e] s1]; simpl in Hc; subst s1; [apply Hk|reflexivity].
Qed.

Ltac frame_step :=
  first [ apply frame_ret | apply frame_raise | apply frame_lift
        | apply frame_get | apply frame_getattr
        | apply frame_bind; [|intros ?]
        | match goal with
          | |- frame (match ?x with _ => _ end) => destruct x
          end ].

Lemma replace_cc_area_store (self : Theory) (area : string) (acc : vec * vec)
    (s : store h) :
  snd (replace_cc_area h self area acc s) = s.
Proof.
  revert s. change (frame (replace_cc_area h self area acc)).
  unfold replace_cc_area, getattr_vec. repeat frame_step.
Qed.

Lemma replace_cc_areas_store (self : Theory) (areas : list string)
    (acc : vec * vec) (s : store h) :
  snd (replace_cc_areas h self areas acc s) = s.
Proof.
  revert acc; induction areas as [|a areas IH]; intros acc; [reflexivity|].
  cbn [replace_cc_areas]. unfold bind.
  pose proof (replace_cc_area_store self a acc s) as Ha.
  destruct (replace_cc_area h self a acc s) as [[acc'|e] s1]; simpl in Ha;
    subst s1; [apply IH|reflexivity].
Qed.

(** Computations that change nothing but the attribute
    [cc_input_rates]. *)
Definition cc_only {A : Type} (c : M h A) : Prop :=
  forall s, same_arrays s (snd (c s)) /\ same_attrs_but_cc s (snd (c s)).

Lemma frame_cc_only {A : Type} (c : M h A) : frame c -> cc_only c.
Proof.
  intros Hc s. rewrite Hc. unfold same_arrays, same_attrs_but_cc. auto.
Qed.

Lemma cc_only_setattr (v : pyval) : cc_only (setattr h "cc_input_rates" v).
Proof.
  intros s. unfold setattr, same_arrays, same_attrs_but_cc.
  cbn [snd K_matrix J_matrix np_random attrs].
  repeat split; auto. intros k Hk. now apply dict_get_set_other.
Qed.

Lemma cc_only_bind {A B : Type} (c : M h A) (k : A -> M h B) :
  cc_only c -> (forall a, cc_only (k a)) -> cc_only (bind h c k).
Proof.
  intros Hc Hk s. unfold bind. specialize (Hc s).
  destruct (c s) as [[a|e] s1]; simpl in Hc; [|exact Hc].
  specialize (Hk a s1). destruct Hc as [(K1 & J1 & G1) A1].
  destruct Hk as [(K2 & J2 & G2) A2].
  unfold same_arrays, same_attrs_but_cc in *.
  repeat split; try congruence.
  intros k0 Hk0. rewrite A2, A1; auto.
Qed.

Lemma replace_cc_areas_frame (self : Theory) (areas : list string)
    (acc : vec * vec) :
  frame (replace_cc_areas h self areas acc).
Proof.
  intros s. apply replace_cc_areas_store.
Qed.

(** [replace_cc_input] changes nothing but the attribute
    [cc_input_rates]. *)
Lemma replace_cc_input_frame (self : Theory) :
  cc_only (replace_cc_input h self).
Proof.
  unfold replace_cc_input.
  apply cc_only_bind.
  - destruct (is_string (replace_cc (network self)) "het_poisson_stat").
    + apply cc_only_bind; [apply frame_cc_only, frame_lift|].
      intros a. apply cc_only_setattr.
    + destruct (is_string (replace_cc (network self)) "hom_poisson_stat").
      * apply cc_only_bind; [apply frame_cc_only, frame_get|].
        intros a. apply cc_only_setattr.
      * apply frame_cc_only, frame_ret.
  - intros _. apply frame_cc_only.
    apply frame_bind; [apply replace_cc_areas_frame|].
    intros acc. repeat frame_step.
Qed.

Definition override_on (self : Theory) : bool :=
  in_strings (replace_cc (network self))
             ["hom_poisson_stat"; "het_poisson_stat"].

Lemma frame_read_ref (r : array_ref) : frame (read_ref h r).
Proof.
  destruct r; unfold read_ref; repeat frame_step.
Qed.

Lemma frame_zero_private (m : matrix R) (mask : matrix bool) :
  frame (zero_ref h (Private m) mask).
Proof.
  unfold zero_ref. apply frame_bind; [apply frame_read_ref|].
  intros a. repeat frame_step.
Qed.

(** X6: with the override off, [mu_sigma] leaves the whole store as it
    found it, whatever it returns or raises. *)
Theorem mu_sigma_override_off_frame (self : Theory) (rates : vec)
    (external : bool) (mf : option (matrix bool)) (vf : option (list bool))
    (s : store h) :
  override_on self = false ->
  snd (mu_sigma h self rates external mf vf s) = s.
Proof.
  intros Hoff. revert s.
  change (frame (mu_sigma h self rates external mf vf)).
  unfold mu_sigma. unfold override_on in Hoff. rewrite Hoff.
  apply frame_bind; [destruct mf; repeat frame_step|].
  intros [K J]. cbv beta iota. apply frame_bind; [apply frame_ret|].
  intros [[K' mu_CC] sigma2_CC]. cbv beta iota.
  apply frame_bind; [apply frame_read_ref|]. intros Kv.
  apply frame_bind; [apply frame_lift|]. intros KJ.
  apply frame_bind; [apply frame_lift|]. intros J2.
  apply frame_bind; [destruct external; repeat frame_step|].
  intros r. repeat frame_step.
Qed.

(** Computations that leave [J_matrix] and numpy's random state alone. *)
Definition keeps_J {A : Type} (c : M h A) : Prop :=
  forall s, J_matrix h (snd (c s)) = J_matrix h s
            /\ np_random h (snd (c s)) = np_random h s.

Lemma frame_keeps_J {A : Type} (c : M h A) : frame c -> keeps_J c.
Proof.
  intros Hc s. rewrite Hc. auto.
Qed.

Lemma cc_only_keeps_J {A : Type} (c : M h A) : cc_only c -> keeps_J c.
Proof.
  intros Hc s. destruct (Hc s) as [(_ & HJ & Hg) _]. auto.
Qed.

Lemma keeps_J_bind {A B : Type} (c : M h A) (k : A -> M h B) :
  keeps_J c -> (forall a, keeps_J (k a)) -> keeps_J (bind h c k).
Proof.
  intros Hc Hk s. unfold bind. specialize (Hc s).
  destruct (c s) as [[a|e] s1]; simpl in Hc; [|exact Hc].
  destruct (Hk a s1) as [HJ Hg]. destruct Hc as [HJ1 Hg1].
  split; congruence.
Qed.

Lemma keeps_J_zero_ref (r : array_ref) (mask : matrix bool) :
  keeps_J (zero_ref h r mask).
Proof.
  unfold zero_ref.
  apply keeps_J_bind; [apply frame_keeps_J, frame_read_ref|]. intros m.
  apply keeps_J_bind; [apply frame_keeps_J, frame_lift|]. intros m'.
  destruct r; [|apply frame_keeps_J, frame_ret].
  apply keeps_J_bind; [|intros; apply frame_keeps_J, frame_ret].
  intros s. unfold set_K_matrix. simpl. auto.
Qed.

Lemma cc_only_zero_private (m : matrix R) (mask : matrix bool) :
  cc_only (zero_ref h (Private m) mask).
Proof.
  apply frame_cc_only, frame_zero_private.
Qed.

Ltac frame_tail :=
  apply frame_bind; [apply frame_read_ref|]; intros ?;
  apply frame_bind; [apply frame_lift|]; intros ?;
  apply frame_bind; [apply frame_lift|]; intros ?;
  apply frame_bind;
    [match goal with
     | |- frame (if ?b then _ else _) => destruct b
     end; repeat frame_step|];
  intros ?; repeat frame_step.

(** X4: [mu_sigma] never assigns to [J_matrix] nor draws random numbers,
    whatever its arguments and the override mode. *)
Theorem mu_sigma_keeps_J_matrix (self : Theory) (rates : vec)
    (external : bool) (mf : option (matrix bool)) (vf : option (list bool))
    (s : store h) :
  J_matrix h (snd (mu_sigma h self rates external mf vf s)) = J_matrix h s
  /\ np_random h (snd (mu_sigma h self rates external mf vf s))
     = np_random h s.
Proof.
  revert s. change (keeps_J (mu_sigma h self rates external mf vf)).
  unfold mu_sigma.
  apply keeps_J_bind;
    [apply frame_keeps_J; destruct mf; repeat frame_step|].
  intros [K J]. cbv beta iota.
  apply keeps_J_bind.
  - destruct (in_strings _ _); [|apply frame_keeps_J, frame_ret].
    apply keeps_J_bind;
      [apply cc_only_keeps_J, replace_cc_input_frame|].
    intros cc. cbv zeta.
    apply keeps_J_bind; [apply keeps_J_zero_ref|].
    intros K'. apply frame_keeps_J, frame_ret.
  - intros [[K' mu_CC] sigma2_CC]. cbv beta iota.
    apply frame_keeps_J. frame_tail.
Qed.

Lemma cc_only_bind_post {A B : Type} (P : A -> Prop) (c : M h A)
    (k : A -> M h B) :
  (forall s a s', c s = (Ok a, s') -> P a) ->
  cc_only c -> (forall a, P a -> cc_only (k a)) -> cc_only (bind h c k).
Proof.
  intros HP Hc Hk s. unfold bind. specialize (Hc s). specialize (HP s).
  destruct (c s) as [[a|e] s1]; simpl in Hc; [|exact Hc].
  specialize (Hk a (HP a s1 eq_refl) s1). destruct Hc as [(K1 & J1 & G1) A1].
  destruct Hk as [(K2 & J2 & G2) A2].
  unfold same_arrays, same_attrs_but_cc in *.
  repeat split; try congruence.
  intros k0 Hk0. rewrite A2, A1; auto.
Qed.

(** X5: with a matrix filter, [mu_sigma] works on copies: the network's
    [K_matrix] and [J_matrix] are the same after the call, in every
    override mode; only the attribute [cc_input_rates] may change. *)
Theorem mu_sigma_matrix_filter_keeps_K_matrix (self : Theory) (rates : vec)
    (external : bool) (mf : matrix bool) (vf : option (list bool))
    (s : store h) :
  same_arrays s (snd (mu_sigma h self rates external (Some mf) vf s))
  /\ same_attrs_but_cc s (snd (mu_sigma h self rates external (Some mf) vf s)).
Proof.
  revert s. change (cc_only (mu_sigma h self rates external (Some mf) vf)).
  unfold mu_sigma.
  apply (cc_only_bind_post (fun KJ => exists m, fst KJ = Private m)).
  - intros s a s'. unfold bind, get, lift, ret.
    destruct (mask_zero (K_matrix h s) (np_logical_not mf)) as [K|e];
      [|discriminate].
    destruct (mask_zero (J_matrix h s) (np_logical_not mf)) as [J|e];
      [|discriminate].
    intros [= <- _]. eexists. reflexivity.
  - apply frame_cc_only. repeat frame_step.
  - intros [K J] [m Hm]. simpl in Hm. subst K. cbv beta iota.
    apply cc_only_bind.
    + destruct (in_strings _ _); [|apply frame_cc_only, frame_ret].
      apply cc_only_bind; [apply replace_cc_input_frame|].
      intros cc. cbv zeta.
      apply cc_only_bind; [apply cc_only_zero_private|].
      intros K'. apply frame_cc_only, frame_ret.
    + intros [[K' mu_CC] sigma2_CC]. cbv beta iota.
      apply frame_cc_only. frame_tail.
Qed.

Lemma bind_ok_inv {A B : Type} (c : M h A) (k : A -> M h B) (s s' : store h)
    (b : B) :
  bind h c k s = (Ok b, s') ->
  exists a s1, c s = (Ok a, s1) /\ k a s1 = (Ok b, s').
Proof.
  unfold bind. destruct (c s) as [[a|e] s1]; [|discriminate].
  intros H. exists a, s1. auto.
Qed.

Lemma mu_sigma_override_K (self : Theory) (rates : vec)
    (external : bool) (vf : option (list bool)) (s s' : store h)
    (r : vec * vec) :
  override_on self = true ->
  mu_sigma h self rates external None vf s = (Ok r, s') ->
  mask_zero (K_matrix h s)
    (helpers_create_mask h (structure (network self)) None)
  = Ok (K_matrix h s').
Proof.
  unfold override_on. intros Hon H. unfold mu_sigma in H.
  apply bind_ok_inv in H. destruct H as ([K J] & s0 & H0 & H).
  unfold bind, get, ret in H0. injection H0 as <- <- <-.
  rewrite Hon in H.
  apply bind_ok_inv in H. destruct H as ([[K' mu_CC] sigma2_CC] & s2 & H1 & H2).
  apply bind_ok_inv in H1. destruct H1 as (cc & s1 & Hcc & H1).
  cbv zeta in H1.
  apply bind_ok_inv in H1. destruct H1 as (K'' & s2' & Hz & Hret).
  unfold ret in Hret. injection Hret as -> _ _ ->.
  destruct (replace_cc_input_frame self s) as [(HK & _ & _) _].
  rewrite Hcc in HK. simpl in HK.
  unfold zero_ref, read_ref, bind, get, lift, set_K_matrix, ret in Hz.
  rewrite HK in Hz.
  destruct (mask_zero (K_matrix h s) _) as [m'|e] eqn:Em; [|discriminate].
  injection Hz as <- <-.
  match type of H2 with
  | ?c _ = _ => assert (Hf : frame c) by (cbv beta iota; frame_tail)
  end.
  specialize (Hf (mkstore h m' (J_matrix h s1) (np_random h s1) (attrs h s1))).
  rewrite H2 in Hf. simpl in Hf. subst s'. reflexivity.
Qed.

(** X7: with the stationary override and no matrix filter, a call of
    [mu_sigma] that returns has zeroed the cortico-cortical entries of the
    network's own [K_matrix]. *)
Theorem mu_sigma_override_zeroes_K_matrix (self : Theory) (rates : vec)
    (external : bool) (vf : option (list bool)) (s s' : store h)
    (r : vec * vec) :
  override_on self = true ->
  mu_sigma h self rates external None vf s = (Ok r, s') ->
  mask_zero (K_matrix h s)
    (helpers_create_mask h (structure (network self)) None)
  = Ok (K_matrix h s').
Proof.
  apply mu_sigma_override_K.
Qed.

Lemma zip_with_idem {A B : Type} (f : A -> B -> A) (r : list A) (m : list B) :
  (forall x b, In x r -> f (f x b) b = f x b) ->
  zip_with f (zip_with f r m) m = zip_with f r m.
Proof.
  revert m; induction r as [|x r IH]; intros [|b m] Hf; simpl; auto.
  rewrite Hf by (simpl; auto). f_equal. apply IH.
  intros; apply Hf; simpl; auto.
Qed.

Lemma mask_zero_idem (A B : matrix R) (mask : matrix bool) :
  mask_zero A mask = Ok B -> mask_zero B mask = Ok B.
Proof.
  unfold mask_zero, mat_zip.
  destruct (same_shape A mask) eqn:E; [|discriminate].
  intros [= <-]. apply same_shape_eq in E. destruct E as [E0 E1].
  unfold same_shape, shape0, shape1 in *. cbn [m_rows m_cols].
  rewrite zip_with_length, E0, Nat.min_id, E1, !Nat.eqb_refl.
  cbn [andb]. do 2 f_equal.
  apply zip_with_idem. intros row m _.
  apply zip_with_idem. intros x b _. destruct b; reflexivity.
Qed.

(** X20: the zeroing happens once: when two calls of [mu_sigma] with the
    stationary override and no matrix filter return one after the other,
    the second leaves [K_matrix] as the first left it. *)
Theorem mu_sigma_override_second_call (self : Theory) (rates1 rates2 : vec)
    (external1 external2 : bool) (vf1 vf2 : option (list bool))
    (s s1 s2 : store h) (r1 r2 : vec * vec) :
  override_on self = true ->
  mu_sigma h self rates1 external1 None vf1 s = (Ok r1, s1) ->
  mu_sigma h self rates2 external2 None vf2 s1 = (Ok r2, s2) ->
  K_matrix h s2 = K_matrix h s1.
Proof.
  intros Hon H1 H2.
  pose proof (mu_sigma_override_K self _ _ _ _ _ _ Hon H1) as E1.
  pose proof (mu_sigma_override_K self _ _ _ _ _ _ Hon H2) as E2.
  apply mask_zero_idem in E1. rewrite E1 in E2. congruence.
Qed.

End Frame.

Ltac frame_step :=
  first [ apply frame_ret | apply frame_raise | apply frame_lift
        | apply frame_get | apply frame_getattr
        | apply frame_bind; [|intros ?]
        | match goal with
          | |- frame _ (match ?x with _ => _ end) => destruct x
          end ].

(** ** Errors of the stability analysis and of the mapper *)

Section Errors.

Variable h : Helpers.

(** X1: a matrix filter without a vector filter is refused by the first
    assertion, before anything is read or computed. *)
Theorem stability_matrix_matrix_filter_alone (self : Theory) (rates : vec)
    (mf : matrix bool) (full_output : bool) (s : store h) :
  stability_matrix h self rates (Some mf) None full_output s
  = (Raise AssertionError, s).
Proof. reflexivity. Qed.

Lemma derivative_at_KeyError (net : Network) (p : TheoryParams)
    (d : R -> R -> R -> R -> R -> R -> R -> R) (mu sigma : vec) (ii : nat) :
  derivative_at (Theory_init net p) d mu sigma ii = Raise (KeyError "V_th").
Proof. reflexivity. Qed.

Lemma bind_is_ok {A B : Type} (c : M h A) (k : A -> M h B) (s : store h) :
  is_ok (fst (c s)) = false -> is_ok (fst (bind h c k s)) = false.
Proof.
  unfold bind. destruct (c s) as [[a|e] s1]; simpl; [discriminate|auto].
Qed.

(** X2: on a theory built by [__init__], for a network with at least one
    population, neither [stability_matrix] nor [lambda_max] without
    filters ever returns: the key ['V_th'] is not among the stored neuron
    parameters. *)
Theorem stability_matrix_never_returns (net : Network) (p : TheoryParams)
    (rates : vec) (full_output : bool) (s : store h) :
  N_vec net <> [] ->
  is_ok (fst (stability_matrix h (Theory_init net p) rates None None
                full_output s)) = false
  /\ is_ok (fst (lambda_max h (Theory_init net p) rates None None
                   full_output s)) = false.
Proof.
  intros HN.
  assert (Hsm : is_ok (fst (stability_matrix h (Theory_init net p) rates
                              None None full_output s)) = false).
  { destruct (stability_matrix h (Theory_init net p) rates None None
                full_output s) as [[r|e] s'] eqn:H; [exfalso|reflexivity].
    unfold stability_matrix in H.
    apply bind_ok_inv in H. destruct H as ([[N K] J] & s0 & H0 & H).
    unfold bind, get, ret in H0. injection H0 as <- <- <- <-.
    cbn [network Theory_init] in H.
    apply bind_ok_inv in H. destruct H as ([N_pre N_post] & s1 & _ & H).
    apply bind_ok_inv in H. destruct H as (C & s2 & _ & H).
    apply bind_ok_inv in H. destruct H as (ms & s3 & _ & H).
    apply bind_ok_inv in H. destruct H as ([mu sigma] & s4 & _ & H).
    apply bind_ok_inv in H. destruct H as (slope & s5 & Hslope & _).
    unfold lift in Hslope.
    destruct (N_vec net) as [|x N]; [contradiction|].
    cbn [length seq mapM] in Hslope.
    rewrite derivative_at_KeyError in Hslope. discriminate. }
  split; [exact Hsm|].
  unfold lambda_max. apply bind_is_ok. exact Hsm.
Qed.

(** X3: as long as no attribute [dim_ext] has been set on the theory,
    [mu_sigma] with [external=False] never returns, whatever the rates, the
    filters and the override mode. *)
Theorem mu_sigma_external_False_never_returns (self : Theory) (rates : vec)
    (mf : option (matrix bool)) (vf : option (list bool)) (s : store h) :
  dict_get (attrs h s) "dim_ext" = Raise (KeyError "dim_ext") ->
  is_ok (fst (mu_sigma h self rates false mf vf s)) = false.
Proof.
  intros Hdim.
  destruct (mu_sigma h self rates false mf vf s) as [[r|e] s'] eqn:H;
    [exfalso|reflexivity].
  unfold mu_sigma in H.
  apply bind_ok_inv in H. destruct H as ([K J] & s0 & H0 & H).
  assert (Hs0 : s0 = s).
  { assert (Hf : frame h
        (match mf with
         | Some mf0 =>
             bind h (get h) (fun s1 =>
               bind h (lift h (mask_zero (K_matrix h s1) (np_logical_not mf0)))
                 (fun K0 =>
                    bind h (lift h (mask_zero (J_matrix h s1)
                                      (np_logical_not mf0)))
                      (fun J0 => ret h (Private K0, J0))))
         | None => bind h (get h) (fun s1 => ret h (Shared_K, J_matrix h s1))
         end)) by (destruct mf; repeat frame_step).
    specialize (Hf s). rewrite H0 in Hf. exact Hf. }
  subst s0.
  apply bind_ok_inv in H. destruct H as ([[K' mu_CC] sigma2_CC] & s2 & H1 & H).
  assert (Hattrs : dict_get (attrs h s2) "dim_ext" = Raise (KeyError "dim_ext")).
  { destruct (in_strings _ _).
    - apply bind_ok_inv in H1. destruct H1 as (cc & s1 & Hcc & H1).
      cbv zeta in H1.
      apply bind_ok_inv in H1. destruct H1 as (K'' & s2' & Hz & Hret).
      unfold ret in Hret. injection Hret as _ _ _ ->.
      destruct (replace_cc_input_frame h self s) as [_ Ha].
      rewrite Hcc in Ha. simpl in Ha.
      assert (Hz' : attrs h s2 = attrs h s1).
      { unfold zero_ref, read_ref, bind, get, lift, set_K_matrix, ret in Hz.
        destruct K; split_match Hz; injection Hz as _ <-; reflexivity. }
      rewrite Hz', Ha by discriminate. exact Hdim.
    - unfold ret in H1. injection H1 as _ _ _ <-. exact Hdim. }
  cbv beta iota in H.
  apply bind_ok_inv in H. destruct H as (Kv & s3 & H3 & H).
  pose proof (frame_read_ref h K' s2) as Hf3. rewrite H3 in Hf3.
  simpl in Hf3. subst s3.
  apply bind_ok_inv in H. destruct H as (KJ & s4 & H4 & H).
  unfold lift in H4. injection H4 as _ <-.
  apply bind_ok_inv in H. destruct H as (J2 & s5 & H5 & H).
  unfold lift in H5. injection H5 as _ <-.
  apply bind_ok_inv in H. destruct H as (rates' & s6 & H6 & _).
  unfold bind, getattr in H6. rewrite Hattrs in H6. discriminate.
Qed.

End Errors.

(** ** The mapper on a network without override *)

Section PlainMapper.

Variable h : Helpers.
Variable net : Network.
Variable p : TheoryParams.

Let self := Theory_init net p.

(** X8: with the external drive and no override, [mu_sigma] returns for
    each population [i] the mean
    [tau_m 1e-3 sum_j K_ij J_ij r_j + tau_m / C_m DC_i] and the deviation
    [sqrt (tau_m 1e-3 sum_j K_ij J_ij^2 r_j)], the sums running over the
    rates followed by the external rate, and leaves the store as it is. *)
Theorem mu_sigma_closed_form (n : nat) (s : store h) (rates : vec)
    (vf : option (list bool)) :
  plain_network h net n s -> length rates = n ->
  mu_sigma h self rates true None vf s
  = (Ok (mean_input (tau_m p) (tau_m p / C_m net) (K_matrix h s)
           (J_matrix h s) (rates ++ [rate_ext p]) (add_DC_drive net),
         std_input (tau_m p) (K_matrix h s) (J_matrix h s)
           (rates ++ [rate_ext p])), s).
Proof.
  intros Hs Hlen. now apply (mu_sigma_plain h net p n).
Qed.

(** The mixture [a x + (1 - a) y] of two vectors. *)
Definition mix (a : R) (x y : vec) : vec :=
  zip_with (fun u v => a * u + (1 - a) * v) x y.

Lemma weighted_sum_mix (a e : R) (kj r1 r2 : vec) :
  length r1 = length r2 ->
  sum (zip_with Rmult kj (mix a r1 r2 ++ [e]))
  = a * sum (zip_with Rmult kj (r1 ++ [e]))
    + (1 - a) * sum (zip_with Rmult kj (r2 ++ [e])).
Proof.
  revert kj r2; induction r1 as [|x r1 IH]; intros kj [|y r2] Hlen;
    try discriminate.
  - destruct kj as [|k kj]; simpl; [lra|]. destruct kj; simpl; lra.
  - destruct kj as [|k kj]; simpl; [lra|].
    unfold mix in IH. rewrite IH by (simpl in Hlen; lia). lra.
Qed.

Lemma zip_with_pointwise {A B : Type} (F F1 F2 : A -> B -> R)
    (g : R -> R -> R) (X : list A) (D : list B) :
  (forall x d, F x d = g (F1 x d) (F2 x d)) ->
  zip_with F X D = zip_with g (zip_with F1 X D) (zip_with F2 X D).
Proof.
  intros HF. revert D; induction X as [|x X IH]; intros [|d D]; simpl; auto.
  rewrite HF, IH. reflexivity.
Qed.

Lemma mean_input_mix (a tm q e : R) (K J : matrix R) (r1 r2 DC : vec) :
  length r1 = length r2 ->
  mean_input tm q K J (mix a r1 r2 ++ [e]) DC
  = mix a (mean_input tm q K J (r1 ++ [e]) DC)
          (mean_input tm q K J (r2 ++ [e]) DC).
Proof.
  intros Hlen. unfold mean_input, mix at 2.
  apply zip_with_pointwise. intros kj dc.
  rewrite weighted_sum_mix by assumption. lra.
Qed.

(** X9: without override the mean input is affine in the rates: the mean of
    a mixture [a r1 + (1 - a) r2] of two rate vectors is the same mixture
    of their means. *)
Theorem mu_sigma_mean_affine (n : nat) (s : store h) (a : R) (r1 r2 : vec) :
  plain_network h net n s -> length r1 = n -> length r2 = n ->
  exists mu1 sigma1 mu2 sigma2 sigma,
    mu_sigma h self r1 true None None s = (Ok (mu1, sigma1), s)
    /\ mu_sigma h self r2 true None None s = (Ok (mu2, sigma2), s)
    /\ mu_sigma h self (mix a r1 r2) true None None s
       = (Ok (mix a mu1 mu2, sigma), s).
Proof.
  intros Hs H1 H2.
  exists (mu_of h net p s r1), (sigma_of h p s r1),
         (mu_of h net p s r2), (sigma_of h p s r2),
         (sigma_of h p s (mix a r1 r2)).
  split; [now apply (mu_sigma_plain h net p n)|].
  split; [now apply (mu_sigma_plain h net p n)|].
  rewrite (mu_sigma_plain h net p n)
    by (auto; unfold mix; rewrite zip_with_length; lia).
  unfold mu_of. rewrite mean_input_mix by congruence. reflexivity.
Qed.

End PlainMapper.

(** ** The solver's result and its edge cases *)

Section Solver.

Variable h : Helpers.
Variable net : Network.
Variable p : TheoryParams.

Let self := Theory_init net p.

(** X12: an [initial_rates] string other than ['random_uniform'] selects no
    branch: the solver raises [UnboundLocalError] for [num_iter], having
    changed nothing. *)
Theorem integrate_siegert_python_unknown_mode (mode : string)
    (full_output parallel : bool) (s : store h) :
  initial_rates_p p = IR_str mode -> mode <> "random_uniform" ->
  integrate_siegert_python h self full_output parallel s
  = (Raise (UnboundLocalError "num_iter"), s).
Proof.
  intros Hmode Hne. unfold integrate_siegert_python, bind, get, lift.
  cbn [NP self Theory_init dict_get String.eqb Ascii.eqb Bool.eqb params].
  rewrite Hmode. apply String.eqb_neq in Hne. rewrite Hne. reflexivity.
Qed.

(** X13: when [np.arange(0, T, dt)] is empty (a horizon [T] that is not
    positive, for a positive step), the solver raises [IndexError] at
    [y[0, :] = initial_rates]. *)
Theorem integrate_siegert_python_empty_grid (y0 : vec)
    (full_output parallel : bool) (s : store h) :
  initial_vector p (shape0 (K_matrix h s)) = Some y0 ->
  dt p <> 0 -> arange_len (T p) (dt p) = 0%nat ->
  fst (integrate_siegert_python h self full_output parallel s)
  = Raise IndexError.
Proof.
  intros Hinit Hdt Hlen. unfold integrate_siegert_python, bind, get, lift.
  cbn [NP self Theory_init dict_get String.eqb Ascii.eqb Bool.eqb params].
  unfold initial_vector in Hinit.
  destruct (initial_rates_p p) as [|mode|v]; try discriminate;
    cbn [simulations next]; unfold bind, ret, lift;
    cbn [params Theory_init fst snd];
    rewrite (np_arange_ok _ _ Hdt); unfold setattr;
    rewrite arange_points_length; change (params self) with p;
    rewrite Hlen; reflexivity.
Qed.

(** X14: the solver leaves the connectivity and numpy's random state as they
    are and records the time grid [0, dt, 2 dt, ...] in [self.t]. *)
Theorem integrate_siegert_python_store (n : nat) (s : store h) (y0 : vec)
    (full_output parallel : bool) :
  plain_network h net n s -> initial_vector p n = Some y0 ->
  length y0 = n -> tau_m p <> 0 -> (0 < arange_len (T p) (dt p))%nat ->
  let s' := snd (integrate_siegert_python h self full_output parallel s) in
  K_matrix h s' = K_matrix h s /\ J_matrix h s' = J_matrix h s
  /\ np_random h s' = np_random h s
  /\ dict_get (attrs h s') "t"
     = Ok (PVec (map (fun i => INR i * dt p)
                     (seq 0 (arange_len (T p) (dt p))))).
Proof.
  intros Hs Hinit Hy0 Htm Hlen s'. subst s'.
  rewrite (integrate_siegert_python_plain h net p n s y0) by assumption.
  cbn [snd with_t K_matrix J_matrix np_random attrs].
  split; [reflexivity|split; [reflexivity|split; [reflexivity|]]].
  apply dict_get_set_same.
Qed.

Lemma rk4_trajectory_head (f : vec -> vec) (d : R) (y : vec) (k : nat) :
  exists tl, rk4_trajectory f d y k = y :: tl.
Proof.
  destruct k; simpl; eexists; reflexivity.
Qed.

(** All the rows of a Runge-Kutta trajectory have the length of the
    state. *)
Lemma rk4_trajectory_rows (n : nat) (s : store h) (d : R) (y : vec) (k : nat) :
  plain_network h net n s -> length y = n ->
  Forall (fun r => length r = n) (rk4_trajectory (ode_rhs h net p s) d y k).
Proof.
  intros Hs. revert y; induction k as [|k IH]; intros y Hy; simpl.
  - constructor; auto.
  - constructor; auto. apply IH. now apply rk4_step_length.
Qed.

(** X15: the full output is an array with one row per population and one
    column per point of the time grid, whose first column is the initial
    vector. *)
Theorem integrate_siegert_python_shape (n : nat) (s : store h) (y0 : vec)
    (parallel : bool) :
  plain_network h net n s -> initial_vector p n = Some y0 ->
  length y0 = n -> tau_m p <> 0 -> (0 < arange_len (T p) (dt p))%nat ->
  exists Y,
    fst (integrate_siegert_python h self true parallel s)
    = Ok (One (structure_vec net) Y)
    /\ shape0 Y = n /\ shape1 Y = arange_len (T p) (dt p) /\ wf_matrix Y
    /\ forall i, (i < n)%nat -> mget Y i 0 = nth i y0 0.
Proof.
  intros Hs Hinit Hy0 Htm Hlen.
  rewrite (integrate_siegert_python_plain h net p n s y0) by assumption.
  eexists. split; [reflexivity|].
  unfold output, transpose, shape0, shape1, wf_matrix, mget.
  cbn [m_rows m_cols].
  rewrite length_map, length_seq, rk4_trajectory_length.
  repeat split; try lia.
  - rewrite Forall_map. apply Forall_forall. intros j _.
    now rewrite length_map, rk4_trajectory_length.
  - intros i Hi.
    rewrite (nth_map_lt _ _ _ 0%nat) by (rewrite length_seq; lia).
    rewrite seq_nth by lia.
    destruct (rk4_trajectory_head (ode_rhs h net p s) (dt p) y0
                (arange_len (T p) (dt p) - 1)) as [tl ->].
    reflexivity.
Qed.

Lemma last_map_nonempty {A B : Type} (f : A -> B) (l : list A) (d : A)
    (d' : B) :
  l <> [] -> last (map f l) d' = f (last l d).
Proof.
  induction l as [|x l IH]; [contradiction|]. intros _.
  destruct l as [|y l]; [reflexivity|].
  change (last (map f (y :: l)) d' = f (last (y :: l) d)).
  apply IH. discriminate.
Qed.

(** X16: without full output the solver returns, for each population, its
    initial rate and its rate after the last step. *)
Theorem integrate_siegert_python_endpoints (n : nat) (s : store h) (y0 : vec)
    (parallel : bool) :
  plain_network h net n s -> initial_vector p n = Some y0 ->
  length y0 = n -> tau_m p <> 0 -> (0 < arange_len (T p) (dt p))%nat ->
  fst (integrate_siegert_python h self false parallel s)
  = Ok (One (structure_vec net)
          (mkmat 2
             (map (fun i =>
                     [nth i y0 0;
                      nth i (last (rk4_trajectory (ode_rhs h net p s) (dt p)
                                     y0 (arange_len (T p) (dt p) - 1)) [])
                          0])
                  (seq 0 n)))).
Proof.
  intros Hs Hinit Hy0 Htm Hlen.
  rewrite (integrate_siegert_python_plain h net p n s y0) by assumption.
  unfold output, transpose. cbn [fst m_rows m_cols].
  do 3 f_equal. rewrite map_map. apply map_ext. intros j.
  destruct (rk4_trajectory_head (ode_rhs h net p s) (dt p) y0
              (arange_len (T p) (dt p) - 1)) as [tl E].
  rewrite (last_map_nonempty _ _ []) by (rewrite E; discriminate).
  rewrite E. reflexivity.
Qed.

(** Vectors of one repeated value, as maps over a vector of the same
    length. *)
Lemma zip_plus_const (a b : R) (y : vec) :
  zip_with Rplus (map (fun _ => a) y) (map (fun _ => b) y)
  = map (fun _ => a + b) y.
Proof.
  induction y as [|x y IH]; simpl; congruence.
Qed.

Lemma scale_const (c a : R) (y : vec) :
  scale c (map (fun _ => a) y) = map (fun _ => c * a) y.
Proof.
  unfold scale. rewrite map_map. reflexivity.
Qed.

Lemma zip_plus_zero (c : R) (y : vec) :
  c = 0 -> zip_with Rplus y (map (fun _ => c) y) = y.
Proof.
  intros ->. induction y as [|x y IH]; simpl; [reflexivity|].
  rewrite IH. f_equal. lra.
Qed.

Lemma ode_rhs_fixed_point (s : store h) (y : vec) :
  Phi_of h net p s y = y -> ode_rhs h net p s y = map (fun _ => 0) y.
Proof.
  intros Hfix. unfold ode_rhs. rewrite Hfix, zip_with_same, map_map.
  apply map_ext. intros x. unfold Rdiv. lra.
Qed.

Lemma rk4_step_fixed_point (s : store h) (d : R) (y : vec) :
  Phi_of h net p s y = y -> rk4_step (ode_rhs h net p s) d y = y.
Proof.
  intros Hfix. unfold rk4_step. cbv zeta.
  rewrite (ode_rhs_fixed_point s y Hfix), scale_const.
  rewrite (zip_plus_zero (d / 2 * 0) y) by lra.
  rewrite (ode_rhs_fixed_point s y Hfix), !scale_const.
  rewrite (zip_plus_zero (d / 2 * 0) y) by lra.
  rewrite (ode_rhs_fixed_point s y Hfix), !scale_const.
  rewrite (zip_plus_zero (d * 0) y) by lra.
  rewrite (ode_rhs_fixed_point s y Hfix), !zip_plus_const, scale_const.
  apply zip_plus_zero. lra.
Qed.

Lemma rk4_trajectory_fixed_point (s : store h) (d : R) (y : vec) (k : nat) :
  Phi_of h net p s y = y ->
  rk4_trajectory (ode_rhs h net p s) d y k = repeat y (S k).
Proof.
  intros Hfix. induction k as [|k IH]; [reflexivity|].
  cbn [rk4_trajectory]. rewrite (rk4_step_fixed_point s d y Hfix), IH.
  reflexivity.
Qed.

Lemma map_seq_nth {B : Type} (g : R -> B) (l : vec) :
  map (fun j => g (nth j l 0)) (seq 0 (length l)) = map g l.
Proof.
  induction l as [|x l IH]; [reflexivity|].
  cbn [length seq map nth]. f_equal.
  rewrite <- seq_shift, map_map. exact IH.
Qed.

(** X17: started at a fixed point of [Phi], the solver stays there: every
    population keeps its initial rate at every point of the time grid. *)
Theorem integrate_siegert_python_fixed_point (n : nat) (s : store h)
    (y0 : vec) (parallel : bool) :
  plain_network h net n s -> initial_vector p n = Some y0 ->
  length y0 = n -> tau_m p <> 0 -> (0 < arange_len (T p) (dt p))%nat ->
  Phi_of h net p s y0 = y0 ->
  fst (integrate_siegert_python h self true parallel s)
  = Ok (One (structure_vec net)
          (mkmat (arange_len (T p) (dt p))
             (map (fun x => repeat x (arange_len (T p) (dt p))) y0))).
Proof.
  intros Hs Hinit Hy0 Htm Hlen Hfix.
  rewrite (integrate_siegert_python_plain h net p n s y0) by assumption.
  unfold output, transpose, shape0. cbn [fst m_rows m_cols].
  rewrite (rk4_trajectory_fixed_point s _ _ _ Hfix).
  replace (S (arange_len (T p) (dt p) - 1)) with (arange_len (T p) (dt p))
    by lia.
  rewrite repeat_length. do 3 f_equal.
  rewrite <- Hy0.
  rewrite <- (map_seq_nth (fun x => repeat x (arange_len (T p) (dt p))) y0).
  apply map_ext. intros j. apply map_repeat.
Qed.

(** The full trajectory from [y0], populations by time. *)
Definition trajectory (s : store h) (y0 : vec) : matrix R :=
  transpose (mkmat (shape0 (K_matrix h s))
               (rk4_trajectory (ode_rhs h net p s) (dt p) y0
                  (arange_len (T p) (dt p) - 1))).

Section Random.

Variables (n N : nat) (rate_max : R) (rng_seed : Z).

Let running (c : nat) : generator :=
  Gen_initial_rates true c N n rate_max rng_seed.

Lemma next_running (c : nat) (s : store h) :
  (S c < N)%nat ->
  next h (running c) s
  = (Ok (scale rate_max (fst (rand h n (np_random h s))), running (S c)),
     mkstore h (K_matrix h s) (J_matrix h s)
       (snd (rand h n (np_random h s))) (attrs h s)).
Proof.
  intros Hc. unfold running, next, bind, ret, get, set_np_random.
  apply Nat.ltb_lt in Hc. rewrite Hc.
  destruct (rand h n (np_random h s)) as [v g]. reflexivity.
Qed.

Lemma simulations_running (parallel : bool) (k c : nat) (s : store h)
    (acc : list (matrix R)) :
  plain_network h net n s -> tau_m p <> 0 ->
  (0 < arange_len (T p) (dt p))%nat -> (k + S c <= N)%nat ->
  exists s',
    simulations h self true parallel n (tau_m p * 1e-3) k (running c) acc s
    = (Ok (acc ++ map (trajectory s) (yields h k (running c) s)), s').
Proof.
  intros Hs Htm Hlen. revert c s acc Hs.
  induction k as [|k IH]; intros c s acc Hs Hk.
  - exists s. cbn [simulations yields map]. rewrite app_nil_r. reflexivity.
  - pose proof (next_running c s ltac:(lia)) as Hnext.
    set (v := scale rate_max (fst (rand h n (np_random h s)))) in *.
    set (s1 := mkstore h (K_matrix h s) (J_matrix h s)
                 (snd (rand h n (np_random h s))) (attrs h s)) in *.
    assert (Hv : length v = n)
      by (subst v; unfold scale; rewrite length_map; apply rand_length).
    unfold self in *.
    rewrite (simulations_step h net p n s s1 true parallel k _ _ v acc Hnext)
      by assumption.
    destruct (IH (S c) (with_t h p s1)
                (acc ++ [output true
                           (mkmat n (rk4_trajectory (ode_rhs h net p s1)
                                       (dt p) v
                                       (arange_len (T p) (dt p) - 1)))])
                Hs ltac:(lia)) as [s' Hrest].
    exists s'. fold running. rewrite Hrest. f_equal. f_equal.
    rewrite <- app_assoc. f_equal.
    cbn [yields]. fold running. rewrite Hnext. cbn [map app].
    assert (Hdim : shape0 (K_matrix h s) = n) by apply Hs.
    f_equal.
    + unfold trajectory, output. rewrite Hdim. reflexivity.
    + unfold running.
      rewrite (yields_running_rng h N n rate_max rng_seed k (S c)
                 (with_t h p s1) s1) by reflexivity.
      reflexivity.
Qed.

End Random.

(** X18: on the random path the solver returns, for each vector that the
    generator of [initial_rates] yields (seed 123, [rate_max = 1000]), the
    Runge-Kutta trajectory from that vector; the trajectories are computed
    one after the other and share nothing but the network. *)
Theorem integrate_siegert_python_random_uniform (n : nat) (s : store h)
    (parallel : bool) :
  plain_network h net n s ->
  initial_rates_p p = IR_str "random_uniform" ->
  tau_m p <> 0 -> (0 < arange_len (T p) (dt p))%nat ->
  fst (integrate_siegert_python h self true parallel s)
  = Ok (let trajectories :=
          map (trajectory s)
            (yields h (initial_rates_iter p)
               (initial_rates self (initial_rates_iter p) n "random_uniform"
                  1000 123) s) in
        if Nat.eqb (initial_rates_iter p) 1
        then One (structure_vec net) (hd (mkmat 0 []) trajectories)
        else Many (structure_vec net) trajectories).
Proof.
  intros Hs Hmode Htm Hlen.
  assert (Hdim : shape0 (K_matrix h s) = n) by apply Hs.
  unfold integrate_siegert_python, bind at 1, get. unfold bind at 1, lift.
  cbn [NP self Theory_init dict_get String.eqb Ascii.eqb Bool.eqb params
       network].
  rewrite Hmode, Hdim. cbn [String.eqb Ascii.eqb Bool.eqb].
  destruct (initial_rates_iter p) as [|m] eqn:EN.
  - reflexivity.
  - assert (Hsd : valid_seed 123) by (unfold valid_seed; simpl; lia).
    pose proof (next_fresh h self (S m) n "random_uniform" 1000 123 s Hsd
                  ltac:(lia)) as Hnext.
    set (v := scale 1000 (fst (rand h n (np_random_seed h 123)))) in *.
    set (s1 := mkstore h (K_matrix h s) (J_matrix h s)
                 (snd (rand h n (np_random_seed h 123))) (attrs h s)) in *.
    assert (Hv : length v = n)
      by (subst v; unfold scale; rewrite length_map; apply rand_length).
    unfold bind. unfold self in *.
    rewrite (simulations_step h net p n s s1 true parallel m _ _ v [] Hnext)
      by assumption.
    destruct (simulations_running n (S m) 1000 123 parallel m 0
                (with_t h p s1)
                ([] ++ [output true
                          (mkmat n (rk4_trajectory (ode_rhs h net p s1)
                                      (dt p) v
                                      (arange_len (T p) (dt p) - 1)))])
                Hs Htm Hlen ltac:(lia)) as [s' Hrest].
    unfold self in Hrest. rewrite Hrest. cbn [yields]. rewrite Hnext. cbn [app map hd].
    rewrite (yields_running_rng h (S m) n 1000 123 m 0 (with_t h p s1) s1)
      by reflexivity.
    unfold trajectory, output.
    change (K_matrix h (with_t h p s1)) with (K_matrix h s).
    rewrite Hdim. destruct m; reflexivity.
Qed.

Lemma rk_step_zero_tau_m (n : nat) (s : store h) (parallel : bool) (d : R)
    (y : vec) :
  plain_network h net n s -> length y = n -> tau_m p = 0 ->
  rk_step h self parallel d (tau_m p * 1e-3) y s
  = (Raise ZeroDivisionError, s).
Proof.
  intros Hs Hy Htm. unfold rk_step, bind, lift, self.
  rewrite (Phi_plain h net p n) by assumption.
  replace (tau_m p * 1e-3) with 0 by (rewrite Htm; lra).
  rewrite py_div_zero. reflexivity.
Qed.

(** X19: with a membrane time constant of zero the first integration step
    divides by zero: the solver raises [ZeroDivisionError] as soon as the
    time grid has two points. *)
Theorem integrate_siegert_python_zero_tau_m (n : nat) (s : store h)
    (y0 : vec) (full_output parallel : bool) :
  plain_network h net n s -> initial_vector p n = Some y0 ->
  length y0 = n -> tau_m p = 0 -> (2 <= arange_len (T p) (dt p))%nat ->
  fst (integrate_siegert_python h self full_output parallel s)
  = Raise ZeroDivisionError.
Proof.
  intros Hs Hinit Hy0 Htm Hlen.
  assert (Hdt : dt p <> 0)
    by (intros E; rewrite E, arange_len_zero_step in Hlen; lia).
  assert (Hdim : shape0 (K_matrix h s) = n) by (apply Hs).
  assert (Hsim : forall gen,
    next h gen s = (Ok (y0, Gen_repeat y0 0), s) ->
    simulations h self full_output parallel n (tau_m p * 1e-3) 1 gen [] s
    = (Raise ZeroDivisionError, with_t h p s)).
  { intros gen Hgen. cbn [simulations]. unfold bind at 1. rewrite Hgen.
    unfold bind at 1. unfold lift at 1.
    cbn [fst snd params self Theory_init].
    rewrite (np_arange_ok _ _ Hdt).
    unfold bind at 1. unfold setattr at 1. fold (with_t h p s).
    rewrite arange_points_length.
    destruct (arange_len (T p) (dt p)) as [|[|m]] eqn:Em; try lia.
    unfold bind at 1. unfold lift at 1.
    rewrite set_row_ok by (unfold shape0; simpl; auto; lia).
    cbn [m_rows m_cols repeat set_nth Nat.pred integration_loop nth].
    unfold bind at 1. unfold bind at 1.
    rewrite (rk_step_zero_tau_m n (with_t h p s)) by assumption.
    reflexivity. }
  unfold integrate_siegert_python, bind at 1, get. unfold bind at 1, lift.
  cbn [NP self Theory_init dict_get String.eqb Ascii.eqb Bool.eqb params
       network].
  rewrite Hdim. unfold initial_vector in Hinit.
  destruct (initial_rates_p p) as [|mode|v]; try discriminate;
    injection Hinit as <-; unfold bind;
    specialize (Hsim _ (next_repeat h _ s));
    rewrite Hsim; reflexivity.
Qed.

End Solver.

Section DivisionByZero.

Variable h : Helpers.

(** X11: a membrane capacitance [C_m] of zero makes [mu_sigma] raise
    [ZeroDivisionError] when it scales the DC drive, the store being as it
    was. *)
Theorem mu_sigma_zero_C_m (self : Theory) (rates : vec)
    (vf : option (list bool)) (s : store h) (tm : R) :
  in_strings (replace_cc (network self))
             ["hom_poisson_stat"; "het_poisson_stat"] = false ->
  same_shape (K_matrix h s) (J_matrix h s) = true ->
  shape0 (K_matrix h s) = length rates ->
  shape1 (K_matrix h s) = S (length rates) ->
  C_m (network self) = 0 ->
  dict_get (NP self) "tau_m" = Ok tm ->
  mu_sigma h self rates true None vf s = (Raise ZeroDivisionError, s).
Proof.
  intros Hcc Hsh H0 H1 HCm Htm.
  unfold mu_sigma, bind, lift, ret, get, read_ref. rewrite Hcc. simpl.
  unfold mat_mul.
  rewrite (mat_zip_ok _ _ _ _ Hsh), (mat_zip_ok _ _ _ _ (same_shape_refl _)).
  simpl.
  pose proof (proj1 (same_shape_eq _ _) Hsh) as [HJ0 HJ1].
  unfold shape0, shape1 in *.
  rewrite mat_zip_ok
    by (apply same_shape_eq; unfold shape0, shape1; simpl;
        rewrite zip_with_length; lia).
  rewrite Htm. unfold np_hstack.
  rewrite !np_dot_ok by (simpl; rewrite length_app; simpl; lia).
  simpl.
  unfold np_add, np_zeros_like.
  rewrite broadcast2_same_length
    by (unfold scale, np_zeros; rewrite !length_map, repeat_length,
          zip_with_length; lia).
  rewrite HCm, py_div_zero. reflexivity.
Qed.

End DivisionByZero.

(** ** Filters *)

Section Filters.

Variable h : Helpers.

(** The filter that selects every entry of [A]. *)
Definition all_true {T : Type} (A : matrix T) : matrix bool :=
  mat_map (fun _ => true) A.

Lemma zero_none_row (r : vec) (m : list bool) :
  length r = length m -> Forall (fun b => b = false) m ->
  zip_with (fun x (b : bool) => if b then 0 else x) r m = r.
Proof.
  revert m; induction r as [|x r IH]; intros [|b m] Hlen Hm; simpl;
    try discriminate; auto.
  inversion Hm; subst. f_equal. apply IH; auto.
Qed.

Lemma zero_none_rows (rows : list vec) (mask : list (list bool)) (c : nat) :
  length rows = length mask ->
  Forall (fun r => length r = c) rows ->
  Forall (fun m => length m = c /\ Forall (fun b => b = false) m) mask ->
  zip_with (zip_with (fun x (b : bool) => if b then 0 else x)) rows mask
  = rows.
Proof.
  revert mask; induction rows as [|r rows IH]; intros [|m mask] Hlen Hr Hm;
    simpl; try discriminate; auto.
  inversion Hr; subst. inversion Hm as [|? ? [Hc Hf] Hm']; subst.
  f_equal; [apply zero_none_row; congruence|apply IH; auto].
Qed.

Lemma mask_zero_complement_all_true (A B : matrix R) :
  same_shape A B = true -> wf_matrix A -> wf_matrix B ->
  mask_zero A (np_logical_not (all_true B)) = Ok A.
Proof.
  intros Hsh HA HB. apply same_shape_eq in Hsh. destruct Hsh as [H0 H1].
  unfold mask_zero. rewrite mat_zip_ok
    by (apply same_shape_eq; unfold np_logical_not, all_true, mat_map,
          shape0, shape1 in *; simpl; rewrite !length_map; auto).
  unfold np_logical_not, all_true, mat_map, shape0, shape1, wf_matrix in *.
  cbn [m_rows m_cols].
  rewrite (zero_none_rows _ _ (m_cols A)); [destruct A; reflexivity| | |].
  - rewrite !length_map. exact H0.
  - exact HA.
  - rewrite !Forall_map. eapply Forall_impl; [|exact HB].
    intros r Hr. simpl. rewrite !length_map. split; [congruence|].
    rewrite !Forall_map. apply Forall_forall. reflexivity.
Qed.

(** X10: without override, a matrix filter that selects every entry changes
    nothing: [mu_sigma] returns what it returns without a filter. *)
Theorem mu_sigma_full_filter (self : Theory) (rates : vec) (external : bool)
    (vf : option (list bool)) (s : store h) :
  in_strings (replace_cc (network self))
             ["hom_poisson_stat"; "het_poisson_stat"] = false ->
  same_shape (K_matrix h s) (J_matrix h s) = true ->
  wf_matrix (K_matrix h s) -> wf_matrix (J_matrix h s) ->
  mu_sigma h self rates external (Some (all_true (K_matrix h s))) vf s
  = mu_sigma h self rates external None vf s.
Proof.
  intros Hcc Hsh HK HJ. unfold mu_sigma, bind, get, lift, ret.
  rewrite (mask_zero_complement_all_true _ _ (same_shape_refl _) HK HK).
  rewrite mask_zero_complement_all_true; auto.
  - rewrite Hcc. reflexivity.
  - apply same_shape_eq. apply same_shape_eq in Hsh. intuition congruence.
Qed.

End Filters.

(** ** The theorems above on the concrete network *)

Definition ex_params_with (ir : initial_rates_param) (horizon tm : R)
  : TheoryParams :=
  {| dt := 1; T := horizon; initial_rates_p := ir; initial_rates_iter := 2;
     rate_ext := 10; V_th := -50; V_reset := -65; E_L := -65; tau_m := tm;
     tau_syn_ex := 1 / 2; t_ref := 2 |}.

Lemma ex_plain : plain_network ex_helpers (ex_network None) 2 ex_store.
Proof. apply ex_plain_network. reflexivity. Qed.

Lemma arange_len_0_1 : arange_len 0 1 = 0%nat.
Proof.
  unfold arange_len. rewrite (Zceil_eq 0); [reflexivity|]. lra.
Qed.

Lemma stability_matrix_never_returns_witness :
  N_vec (ex_network None) <> []
  /\ is_ok (fst (stability_matrix ex_helpers
                   (Theory_init (ex_network None) ex_params) [1; 2] None None
                   true ex_store)) = false.
Proof.
  assert (HN : N_vec (ex_network None) <> []) by (simpl; discriminate).
  split; [exact HN|].
  apply (stability_matrix_never_returns ex_helpers (ex_network None)
           ex_params [1; 2] true ex_store HN).
Defined.

Lemma mu_sigma_external_False_never_returns_witness :
  dict_get (attrs ex_helpers ex_store) "dim_ext" = Raise (KeyError "dim_ext")
  /\ is_ok (fst (mu_sigma ex_helpers (ex_theory (Some "hom_poisson_stat"))
                   [1; 2] false None None ex_store)) = false.
Proof.
  split; [reflexivity|].
  apply (mu_sigma_external_False_never_returns ex_helpers
           (ex_theory (Some "hom_poisson_stat")) [1; 2] None None ex_store
           eq_refl).
Defined.

Lemma mu_sigma_override_off_frame_witness :
  override_on (ex_theory None) = false
  /\ snd (mu_sigma ex_helpers (ex_theory None) [1; 2] true None None ex_store)
     = ex_store.
Proof.
  split; [reflexivity|].
  apply (mu_sigma_override_off_frame ex_helpers (ex_theory None) [1; 2] true
           None None ex_store eq_refl).
Defined.

Lemma ex_hom_mu_sigma_returns :
  exists r s',
    mu_sigma ex_helpers (ex_theory (Some "hom_poisson_stat")) [1; 2] true
      None None ex_store = (Ok r, s').
Proof.
  unfold mu_sigma, replace_cc_input, replace_cc_areas, replace_cc_area.
  run_store. run_py. eexists. eexists. reflexivity.
Qed.

Lemma mu_sigma_override_zeroes_K_matrix_witness :
  override_on (ex_theory (Some "hom_poisson_stat")) = true
  /\ exists r s',
       mu_sigma ex_helpers (ex_theory (Some "hom_poisson_stat")) [1; 2] true
         None None ex_store = (Ok r, s')
       /\ mask_zero ex_K (ex_create_mask [("V1", ["23E"]); ("V2", ["23E"])]
                           None)
          = Ok (K_matrix ex_helpers s').
Proof.
  split; [reflexivity|].
  destruct ex_hom_mu_sigma_returns as (r & s' & H).
  exists r, s'. split; [exact H|].
  apply (mu_sigma_override_zeroes_K_matrix ex_helpers
           (ex_theory (Some "hom_poisson_stat")) [1; 2] true None ex_store s'
           r eq_refl H).
Defined.

Lemma mu_sigma_closed_form_witness :
  plain_network ex_helpers (ex_network None) 2 ex_store
  /\ length [1; 2] = 2%nat
  /\ fst (mu_sigma ex_helpers (ex_theory None) [1; 2] true None None ex_store)
     = Ok (mean_input 10 (10 / 250) ex_K ex_J [1; 2; 10] [0; 0],
           std_input 10 ex_K ex_J [1; 2; 10]).
Proof.
  split; [exact ex_plain|split; [reflexivity|]].
  unfold ex_theory.
  rewrite (mu_sigma_closed_form ex_helpers (ex_network None) ex_params 2
             ex_store [1; 2] None ex_plain eq_refl).
  reflexivity.
Defined.

Lemma mu_sigma_mean_affine_witness :
  plain_network ex_helpers (ex_network None) 2 ex_store
  /\ exists mu1 sigma1 mu2 sigma2 sigma,
       mu_sigma ex_helpers (ex_theory None) [1; 2] true None None ex_store
       = (Ok (mu1, sigma1), ex_store)
       /\ mu_sigma ex_helpers (ex_theory None) [3; 4] true None None ex_store
          = (Ok (mu2, sigma2), ex_store)
       /\ mu_sigma ex_helpers (ex_theory None) (mix (1 / 2) [1; 2] [3; 4])
            true None None ex_store
          = (Ok (mix (1 / 2) mu1 mu2, sigma), ex_store).
Proof.
  split; [exact ex_plain|].
  apply (mu_sigma_mean_affine ex_helpers (ex_network None) ex_params 2
           ex_store (1 / 2) [1; 2] [3; 4] ex_plain eq_refl eq_refl).
Defined.

Lemma ex_K_wf : wf_matrix ex_K.
Proof. unfold wf_matrix, ex_K. simpl. repeat constructor. Qed.

Lemma ex_J_wf : wf_matrix ex_J.
Proof. unfold wf_matrix, ex_J. simpl. repeat constructor. Qed.

Lemma mu_sigma_full_filter_witness :
  wf_matrix ex_K /\ wf_matrix ex_J
  /\ mu_sigma ex_helpers (ex_theory None) [1; 2] true
       (Some (mkmat 3 [[true; true; true]; [true; true; true]])) None
       ex_store
     = mu_sigma ex_helpers (ex_theory None) [1; 2] true None None ex_store.
Proof.
  split; [exact ex_K_wf|split; [exact ex_J_wf|]].
  apply (mu_sigma_full_filter ex_helpers (ex_theory None) [1; 2] true None
           ex_store eq_refl eq_refl ex_K_wf ex_J_wf).
Defined.

Definition ex_network_no_capacitance : Network :=
  {| N_vec := [2; 3]; add_DC_drive := [0; 0];
     structure := [("V1", ["23E"]); ("V2", ["23E"])];
     structure_vec := ["V1-23E"; "V2-23E"]; area_list := ["V1"; "V2"];
     replace_cc := None; replace_cc_input_source := "rates.json";
     net_rate_ext := 10; C_m := 0 |}.

Lemma mu_sigma_zero_C_m_witness :
  C_m ex_network_no_capacitance = 0
  /\ mu_sigma ex_helpers (Theory_init ex_network_no_capacitance ex_params)
       [1; 2] true None None ex_store
     = (Raise ZeroDivisionError, ex_store).
Proof.
  split; [reflexivity|].
  apply (mu_sigma_zero_C_m ex_helpers
           (Theory_init ex_network_no_capacitance ex_params) [1; 2] None
           ex_store 10); reflexivity.
Defined.

Lemma integrate_siegert_python_unknown_mode_witness :
  initial_rates_p (ex_params_with (IR_str "random_normal") 3 10)
  = IR_str "random_normal"
  /\ "random_normal" <> "random_uniform"
  /\ integrate_siegert_python ex_helpers
       (Theory_init (ex_network None)
          (ex_params_with (IR_str "random_normal") 3 10)) true false ex_store
     = (Raise (UnboundLocalError "num_iter"), ex_store).
Proof.
  assert (Hne : "random_normal" <> "random_uniform") by discriminate.
  split; [reflexivity|split; [exact Hne|]].
  apply (integrate_siegert_python_unknown_mode ex_helpers (ex_network None)
           (ex_params_with (IR_str "random_normal") 3 10) "random_normal"
           true false ex_store eq_refl Hne).
Defined.

Lemma integrate_siegert_python_empty_grid_witness :
  dt (ex_params_with IR_None 0 10) <> 0
  /\ arange_len (T (ex_params_with IR_None 0 10))
       (dt (ex_params_with IR_None 0 10)) = 0%nat
  /\ fst (integrate_siegert_python ex_helpers
            (Theory_init (ex_network None) (ex_params_with IR_None 0 10))
            true false ex_store)
     = Raise IndexError.
Proof.
  assert (Hdt : dt (ex_params_with IR_None 0 10) <> 0) by (simpl; lra).
  split; [exact Hdt|split; [exact arange_len_0_1|]].
  apply (integrate_siegert_python_empty_grid ex_helpers (ex_network None)
           (ex_params_with IR_None 0 10) [0; 0] true false ex_store eq_refl
           Hdt arange_len_0_1).
Defined.

Lemma ex_tau_m : tau_m ex_params <> 0.
Proof. simpl. lra. Qed.

Lemma ex_grid : (0 < arange_len (T ex_params) (dt ex_params))%nat.
Proof. simpl. rewrite arange_len_3_1. lia. Qed.

Lemma integrate_siegert_python_store_witness :
  plain_network ex_helpers (ex_network None) 2 ex_store
  /\ K_matrix ex_helpers
       (snd (integrate_siegert_python ex_helpers (ex_theory None) true false
               ex_store)) = ex_K.
Proof.
  split; [exact ex_plain|].
  apply (integrate_siegert_python_store ex_helpers (ex_network None)
           ex_params 2 ex_store [0; 0] true false ex_plain eq_refl eq_refl
           ex_tau_m ex_grid).
Defined.

Lemma integrate_siegert_python_shape_witness :
  plain_network ex_helpers (ex_network None) 2 ex_store
  /\ exists Y,
       fst (integrate_siegert_python ex_helpers (ex_theory None) true false
              ex_store) = Ok (One ["V1-23E"; "V2-23E"] Y)
       /\ shape0 Y = 2%nat.
Proof.
  split; [exact ex_plain|].
  destruct (integrate_siegert_python_shape ex_helpers (ex_network None)
              ex_params 2 ex_store [0; 0] false ex_plain eq_refl eq_refl
              ex_tau_m ex_grid) as (Y & HY & H0 & _).
  exists Y. split; [exact HY|exact H0].
Defined.

Lemma integrate_siegert_python_endpoints_witness :
  plain_network ex_helpers (ex_network None) 2 ex_store
  /\ exists rows,
       fst (integrate_siegert_python ex_helpers (ex_theory None) false false
              ex_store) = Ok (One ["V1-23E"; "V2-23E"] (mkmat 2 rows)).
Proof.
  split; [exact ex_plain|].
  eexists.
  apply (integrate_siegert_python_endpoints ex_helpers (ex_network None)
           ex_params 2 ex_store [0; 0] false ex_plain eq_refl eq_refl
           ex_tau_m ex_grid).
Defined.

(** The rates [1/8] are a fixed point of the concrete network: with the
    transfer function returning its mean input,
    [Phi(y)_i = 0.01 (10 y_1 + 10 y_2 + 10)]. *)
Definition ex_fixed_point : vec := [1 / 8; 1 / 8].

Lemma ex_fixed_point_Phi :
  Phi_of ex_helpers (ex_network None)
    (ex_params_with (IR_array ex_fixed_point) 3 10) ex_store ex_fixed_point
  = ex_fixed_point.
Proof.
  unfold Phi_of, mu_of, sigma_of, mean_input, std_input, nu0, ex_fixed_point.
  simpl. f_equal; [lra|f_equal; lra].
Qed.

Lemma integrate_siegert_python_fixed_point_witness :
  plain_network ex_helpers (ex_network None) 2 ex_store
  /\ Phi_of ex_helpers (ex_network None)
       (ex_params_with (IR_array ex_fixed_point) 3 10) ex_store
       ex_fixed_point = ex_fixed_point
  /\ fst (integrate_siegert_python ex_helpers
            (Theory_init (ex_network None)
               (ex_params_with (IR_array ex_fixed_point) 3 10))
            true false ex_store)
     = Ok (One ["V1-23E"; "V2-23E"]
             (mkmat 3 [[1 / 8; 1 / 8; 1 / 8]; [1 / 8; 1 / 8; 1 / 8]])).
Proof.
  split; [exact ex_plain|split; [exact ex_fixed_point_Phi|]].
  pose proof (integrate_siegert_python_fixed_point ex_helpers
                (ex_network None)
                (ex_params_with (IR_array ex_fixed_point) 3 10) 2 ex_store
                ex_fixed_point false ex_plain eq_refl eq_refl ex_tau_m
                ex_grid ex_fixed_point_Phi) as H.
  simpl T in H. simpl dt in H. rewrite arange_len_3_1 in H. exact H.
Defined.

Lemma integrate_siegert_python_random_uniform_witness :
  plain_network ex_helpers (ex_network None) 2 ex_store
  /\ exists trajectories,
       fst (integrate_siegert_python ex_helpers
              (Theory_init (ex_network None)
                 (ex_params_with (IR_str "random_uniform") 3 10))
              true false ex_store)
       = Ok (Many ["V1-23E"; "V2-23E"] trajectories).
Proof.
  split; [exact ex_plain|].
  eexists.
  apply (integrate_siegert_python_random_uniform ex_helpers (ex_network None)
           (ex_params_with (IR_str "random_uniform") 3 10) 2 ex_store false
           ex_plain eq_refl ex_tau_m ex_grid).
Defined.

Lemma integrate_siegert_python_zero_tau_m_witness :
  tau_m (ex_params_with IR_None 3 0) = 0
  /\ (2 <= arange_len (T (ex_params_with IR_None 3 0))
            (dt (ex_params_with IR_None 3 0)))%nat
  /\ fst (integrate_siegert_python ex_helpers
            (Theory_init (ex_network None) (ex_params_with IR_None 3 0))
            true false ex_store)
     = Raise ZeroDivisionError.
Proof.
  assert (Hlen : (2 <= arange_len (T (ex_params_with IR_None 3 0))
                        (dt (ex_params_with IR_None 3 0)))%nat)
    by (simpl; rewrite arange_len_3_1; lia).
  split; [reflexivity|split; [exact Hlen|]].
  apply (integrate_siegert_python_zero_tau_m ex_helpers (ex_network None)
           (ex_params_with IR_None 3 0) 2 ex_store [0; 0] true false ex_plain
           eq_refl eq_refl eq_refl Hlen).
Defined.

Lemma ex_hom_mu_sigma_twice :
  exists r1 s1 r2 s2,
    mu_sigma ex_helpers (ex_theory (Some "hom_poisson_stat")) [1; 2] true
      None None ex_store = (Ok r1, s1)
    /\ mu_sigma ex_helpers (ex_theory (Some "hom_poisson_stat")) [3; 4] true
         None None s1 = (Ok r2, s2).
Proof.
  unfold mu_sigma, replace_cc_input, replace_cc_areas, replace_cc_area.
  run_store. run_py. do 4 eexists. split; reflexivity.
Qed.

Lemma mu_sigma_override_second_call_witness :
  override_on (ex_theory (Some "hom_poisson_stat")) = true
  /\ exists r1 s1 r2 s2,
       mu_sigma ex_helpers (ex_theory (Some "hom_poisson_stat")) [1; 2] true
         None None ex_store = (Ok r1, s1)
       /\ mu_sigma ex_helpers (ex_theory (Some "hom_poisson_stat")) [3; 4]
            true None None s1 = (Ok r2, s2)
       /\ K_matrix ex_helpers s2 = K_matrix ex_helpers s1.
Proof.
  split; [reflexivity|].
  destruct ex_hom_mu_sigma_twice as (r1 & s1 & r2 & s2 & H1 & H2).
  exists r1, s1, r2, s2. split; [exact H1|split; [exact H2|]].
  apply (mu_sigma_override_second_call ex_helpers
           (ex_theory (Some "hom_poisson_stat")) [1; 2] [3; 4] true true
           None None ex_store s1 s2 r1 r2 eq_refl H1 H2).
Defined.
